(** * Cotopaxi amplifier-detector wrapper for Metasploit: report parsing

    A shallow embedding of [run] from
    [integrations/metasploit/modules/auxiliary/cotopaxi/amplifier_detector.py]
    together with the few Python [str] and [list] built-ins it relies on.

    Python strings are modelled as lists of characters; a character is a
    code point below 256 (Rocq's [ascii]).  Indices are integers ([Z]), as
    in the source, so that [-1] ("not found", "last character") keeps its
    Python meaning.  The effects of [run] (log lines, the call of the
    scanning engine, the calls of [module.report_service]) are recorded in
    a trace; exceptions are explicit outcomes. *)

From Stdlib Require Import ZArith Ascii String List Lia.
From stdpp Require Import base option list strings gmap.

Local Open Scope Z_scope.

Abbreviation str := (list ascii).

(** String literals of the source are written as Rocq string literals. *)
Coercion list_ascii_of_string : string >-> list.

(** ** Python built-ins *)

Module Py.

(** [len(x)] *)
Definition len {A : Type} (l : list A) : Z := Z.of_nat (length l).

(** A slice bound as [x[lo:hi]] adjusts it: a negative bound counts from
    the end, and every bound is clamped to [0 .. len(x)]. *)
Definition adjust (n i : Z) : Z :=
  if i <? 0 then Z.max 0 (i + n) else Z.min i n.

(** [x[lo:hi]] *)
Definition slice {A : Type} (l : list A) (lo hi : Z) : list A :=
  let lo' := adjust (len l) lo in
  let hi' := adjust (len l) hi in
  take (Z.to_nat (hi' - lo')) (drop (Z.to_nat lo') l).

(** [s.startswith(sub)] *)
Fixpoint startswith (sub s : str) : bool :=
  match sub, s with
  | [], _ => true
  | _ :: _, [] => false
  | a :: sub', b :: s' => Ascii.eqb a b && startswith sub' s'
  end.

(** Scan [s], whose first character has index [i], for the lowest index
    at which [sub] starts. *)
Fixpoint find_at (sub s : str) (i : Z) : Z :=
  if startswith sub s then i
  else match s with
       | [] => -1
       | _ :: s' => find_at sub s' (i + 1)
       end.

(** [s.find(sub, start)]: the lowest index [>= start] where [sub] occurs
    in [s], or [-1].  A negative [start] counts from the end. *)
Definition find (s sub : str) (start : Z) : Z :=
  let st := if start <? 0 then Z.max 0 (start + len s) else start in
  if len s <? st then -1
  else find_at sub (drop (Z.to_nat st) s) st.

(** The line boundaries of [str.splitlines] among the code points below
    256: LF, VT, FF, CR, FS, GS, RS and NEL. *)
Definition is_linebreak (c : ascii) : bool :=
  match N_of_ascii c with
  | 10 | 11 | 12 | 13 | 28 | 29 | 30 | 133 => true
  | _ => false
  end%N.

(** [s.splitlines()], with [cur] the characters of the current line read
    so far.  CR LF is one boundary; no empty line follows a final
    boundary. *)
Fixpoint splitlines_from (cur s : str) : list str :=
  match s with
  | [] => match cur with [] => [] | _ => [cur] end
  | c :: s' =>
      if is_linebreak c then
        cur :: match s' with
               | d :: s'' =>
                   if Ascii.eqb c "013" && Ascii.eqb d "010"
                   then splitlines_from [] s''
                   else splitlines_from [] s'
               | [] => splitlines_from [] s'
               end
      else splitlines_from (cur ++ [c]) s'
  end.

Definition splitlines (s : str) : list str := splitlines_from [] s.

(** [s.split(sep)] for a separator of one character. *)
Fixpoint split (sep : ascii) (s : str) : list str :=
  match s with
  | [] => [[]]
  | c :: s' =>
      if Ascii.eqb c sep then [] :: split sep s'
      else match split sep s' with
           | [] => [[c]]
           | w :: ws => (c :: w) :: ws
           end
  end.

(** [c in chars] *)
Definition char_in (chars : str) (c : ascii) : bool :=
  existsb (Ascii.eqb c) chars.

(** [s.lstrip(chars)], [s.rstrip(chars)], [s.strip(chars)] *)
Fixpoint lstrip (chars s : str) : str :=
  match s with
  | [] => []
  | c :: s' => if char_in chars c then lstrip chars s' else s
  end.

Definition rstrip (chars s : str) : str := rev (lstrip chars (rev s)).

Definition strip (chars s : str) : str := rstrip chars (lstrip chars s).

(** [s.lower()] on code points below 256: A-Z and the Latin-1 capitals
    (U+00C0 .. U+00DE without the multiplication sign) move up by 32. *)
Definition lower_char (c : ascii) : ascii :=
  let n := N_of_ascii c in
  if ((65 <=? n) && (n <=? 90)
      || (192 <=? n) && (n <=? 222) && negb (n =? 215))%N
  then ascii_of_N (n + 32) else c.

Definition lower (s : str) : str := map lower_char s.

(** [c.upper()] for a code point below 256: a-z and the Latin-1 small
    letters (U+00E0 .. U+00FE without the division sign) move down by 32,
    the sharp s becomes "SS", and the upper case of the micro sign and of
    the y with diaeresis lies beyond code point 255, out of these
    strings. *)
Definition upper_char (c : ascii) : option str :=
  let n := N_of_ascii c in
  if ((n =? 181) || (n =? 255))%N then None
  else if (n =? 223)%N then Some ["S"; "S"]%char
  else if ((97 <=? n) && (n <=? 122)
           || (224 <=? n) && (n <=? 254) && negb (n =? 247))%N
  then Some [ascii_of_N (n - 32)]
  else Some [c].

(** [s.upper()], when it stays below code point 256. *)
Fixpoint upper (s : str) : option str :=
  match s with
  | [] => Some []
  | c :: s' =>
      match upper_char c, upper s' with
      | Some u, Some us => Some (u ++ us)
      | _, _ => None
      end
  end.

End Py.

Import Py.
Local Open Scope string_scope.
Local Open Scope list_scope.
Local Open Scope Z_scope.

(** ** Exceptions, log lines and the trace of a request *)

(** The exceptions [run] can meet, by the place that raises them.  They
    are all instances of [Exception], the class the handler of [run]
    catches. *)
Inductive exn : Type :=
| KeyError (key : string)
    (** [args["RHOSTS"]] on a mapping without that key *)
| EngineError (msg : str)
    (** whatever [common_utils.scrap_output(main, parameters)] raises *)
| FormatError
    (** [Exception("Incorrect format of Cotopaxi response!")] *)
| IndexError
    (** [service[1]] on a list of one element *)
| AttributeError (name : str)
    (** [getattr(Protocol, proto_name)] for a name the enumeration lacks *)
| TesterKeyError (name : str).
    (** [PROTOCOL_TESTERS[...]] for a member without a tester *)

(** The text of a log line: a string the wrapper builds, or the rendering
    of an exception ("Error: {}" and [traceback.format_exc()]). *)
Inductive message : Type :=
| Text (s : str)
| ErrorOf (e : exn)
| TracebackOf (e : exn).

(** What [run] does to the outside world, in order. *)
Inductive event : Type :=
| LogHandler_setup (msg_prefix : str)
| module_log (msg : message) (level : str)
| logging_error (msg : message)
| scrap_output_main (parameters : list str)
| report_service (ip proto port name : str).

Inductive outcome (A : Type) : Type :=
| Return (a : A)
| Raise (e : exn).
Arguments Return {A} a.
Arguments Raise {A} e.

(** A computation: the events it caused, then how it ended. *)
Definition M (A : Type) : Type := (list event * outcome A)%type.

#[export] Instance M_ret : MRet M := λ A a, ([], Return a).

#[export] Instance M_bind : MBind M := λ A B f m,
  match m with
  | (t, Return a) => let '(t', r) := f a in (t ++ t', r)
  | (t, Raise e) => (t, Raise e)
  end.

Definition emit (ev : event) : M unit := ([ev], Return tt).

Definition raise {A : Type} (e : exn) : M A := ([], Raise e).

(** [try: body except Exception as exc: handler(exc)] *)
Definition try_except {A : Type} (body : M A) (handler : exn → M A) : M A :=
  match body with
  | (t, Return a) => (t, Return a)
  | (t, Raise e) => let '(t', r) := handler e in (t ++ t', r)
  end.

(** [for x in l: body(x)] *)
Fixpoint for_each {A : Type} (l : list A) (body : A → M unit) : M unit :=
  match l with
  | [] => mret tt
  | x :: l' => body x ;; for_each l' body
  end.

(** [l[i]] on a list *)
Definition getitem {A : Type} (l : list A) (i : nat) : M A :=
  match l !! i with
  | Some x => mret x
  | None => raise IndexError
  end.

(** [args[key]] on the request mapping *)
Definition args_getitem (args : gmap string str) (key : string) : M str :=
  match args !! key with
  | Some v => mret v
  | None => raise (KeyError key)
  end.

(** The truth value of a string: it is not empty. *)
Definition truthy (s : str) : bool :=
  match s with [] => false | _ :: _ => true end.

(** What a request produced: the calls of [module.report_service]. *)
Record ServiceRecord : Type := mkRecord {
  rec_ip : str;
  rec_proto : str;
  rec_port : str;
  rec_name : str
}.

Definition reported (t : list event) : list ServiceRecord :=
  omap (λ ev, match ev with
              | report_service ip proto port name =>
                  Some (mkRecord ip proto port name)
              | _ => None
              end) t.

(** The parameter lists the scanning engine was called with. *)
Definition engine_calls (t : list event) : list (list str) :=
  omap (λ ev, match ev with
              | scrap_output_main parameters => Some parameters
              | _ => None
              end) t.

(** The error lines written by [logging.error] and by [module.log] at
    level "error" with an exception in them. *)
Definition is_error_line (ev : event) : bool :=
  match ev with
  | logging_error _ => true
  | module_log (ErrorOf _) _ => true
  | _ => false
  end.

(** ** The wrapper *)

Module Detector.

Section Wrapper.

(** Set once when the module is loaded (lines 29-44). *)
Variable DEPENDENCIES_MISSING : bool.

(** [common_utils.scrap_output(main, parameters)]: the captured output of
    the scanning engine, or the exception the call ends with.  The
    helper and the engine are not part of this file. *)
Variable scrap_output : list str → outcome str.

(** The enumeration [cotopaxi.common_utils.Protocol], through
    [getattr(Protocol, name)], and the table
    [cotopaxi.cotopaxi_tester.PROTOCOL_TESTERS], through
    [PROTOCOL_TESTERS[p].transport_protocol().__name__]. *)
Variable Protocol : Type.
Variable Protocol_getattr : str → option Protocol.
Variable PROTOCOL_TESTERS : Protocol → option str.

(** Line 115. *)
Definition call_engine (parameters : list str) : M str :=
  (emit (scrap_output_main parameters) ;;
   ([], scrap_output parameters) : M str).

(** Lines 134-138. *)
Definition transport_name (proto_name : str) : M str :=
  match Protocol_getattr proto_name with
  | None => raise (AttributeError proto_name)
  | Some p =>
      match PROTOCOL_TESTERS p with
      | None => raise (TesterKeyError proto_name)
      | Some transport => mret transport
      end
  end.

(** Lines 112-114. *)
Definition build_parameters (args : gmap string str) : M (list str) :=
  host ← args_getitem args "RHOSTS";
  let parameters := [host] in
  match args !! "RPORTS" with
  | Some rports =>
      if truthy rports then mret (parameters ++ [rports])
      else mret parameters
  | None => mret parameters
  end.

(** Lines 130-150: the body of the inner loop. *)
Definition report_token (proto_name service : str) : M unit :=
  let service := strip " '" service in
  let service := split ":" service in
  service_ip ← getitem service 0;
  service_port ← getitem service 1;
  transport_proto ← transport_name proto_name;
  emit (module_log
          (Text ("Found service - host: " ++ service_ip ++ " port: "
                 ++ service_port ++ " proto: " ++ proto_name ++ " over "
                 ++ transport_proto))
          "error") ;;
  emit (report_service service_ip (lower transport_proto) service_port
          (lower proto_name)).

(** Lines 125-129: the body of the outer loop. *)
Definition report_line (protocol_service : str) : M unit :=
  let name_start := find protocol_service "Protocol." 0 in
  let name_end := find protocol_service ":" name_start in
  let proto_name :=
    slice protocol_service (name_start + len "Protocol.") name_end in
  let services := split "," (slice protocol_service (name_end + 3) (-1)) in
  for_each services (report_token proto_name).

(** The protocol name and the address tokens [report_line] takes from a
    line (lines 125-128). *)
Definition proto_name_of (protocol_service : str) : str :=
  let name_start := find protocol_service "Protocol." 0 in
  let name_end := find protocol_service ":" name_start in
  slice protocol_service (name_start + len "Protocol.") name_end.

Definition services_of (protocol_service : str) : list str :=
  let name_start := find protocol_service "Protocol." 0 in
  let name_end := find protocol_service ":" name_start in
  split "," (slice protocol_service (name_end + 3) (-1)).

(** The registry as a partial function: the transport of a name that is
    a member with a tester. *)
Definition lookup (proto_name : str) : option str :=
  Protocol_getattr proto_name ≫= PROTOCOL_TESTERS.

(** Lines 121-123. *)
Definition candidate_lines (cotopaxi_output : str)
    (start_index end_index : Z) : list str :=
  drop 1 (splitlines (slice cotopaxi_output (start_index + 2)
                        (end_index - 1))).

(** Lines 116-150: what is done with the captured output. *)
Definition parse_report (cotopaxi_output : str) : M unit :=
  emit (module_log (Text cotopaxi_output) "error") ;;
  let start_index := find cotopaxi_output "Active endpoints:" 0 in
  let end_index := find cotopaxi_output "Total number" start_index in
  if (start_index <? 0) || (end_index <? 0) then raise FormatError
  else
    let protocol_services :=
      candidate_lines cotopaxi_output start_index end_index in
    for_each protocol_services report_line.

(** Lines 151-154. *)
Definition handler (exc : exn) : M unit :=
  emit (module_log (ErrorOf exc) "error") ;;
  emit (logging_error (TracebackOf exc)).

(** Lines 112-150: the body of the [try]. *)
Definition attempt (args : gmap string str) : M unit :=
  parameters ← build_parameters args;
  cotopaxi_output ← call_engine parameters;
  parse_report cotopaxi_output.

(** Lines 104-154. *)
Definition run (args : gmap string str) : M unit :=
  host ← args_getitem args "RHOSTS";
  emit (LogHandler_setup (host ++ " - ")) ;;
  if DEPENDENCIES_MISSING then
    emit (logging_error
            (Text "Module dependency (requests) is missing, cannot continue"))
  else try_except (attempt args) handler.

End Wrapper.

Arguments transport_name {Protocol} _ _ _.
Arguments lookup {Protocol} _ _ _.
Arguments report_token {Protocol} _ _ _ _.
Arguments report_line {Protocol} _ _ _.
Arguments parse_report {Protocol} _ _ _.
Arguments attempt _ {Protocol} _ _ _.
Arguments run _ _ {Protocol} _ _ _.

End Detector.

Import Detector.

(** ** The metadata of a ping module *)

Definition DQ : ascii := "034"%char.

(** A reference of a module: [{"type": ..., "ref": ...}]. *)
Record Reference : Type := mkReference {
  ref_type : str;
  ref_ref : str
}.

Module Ping.

Section PingMetadata.

(** The enumeration and the table of testers, as for [run]; of a tester
    [prepare_metadata] asks [default_port()]. *)
Variable Protocol : Type.
Variable Protocol_getattr : str → option Protocol.
Variable Port : Type.
Variable PROTOCOL_TESTERS_default_port : Protocol → option Port.

(** [common_utils.PARAMETER_RHOSTS], which is not part of this file. *)
Variable RhostsOption : Type.
Variable PARAMETER_RHOSTS : RhostsOption.

(** The option RPORTS of the metadata. *)
Record PortsOption : Type := mkPortsOption {
  opt_type : str;
  opt_description : str;
  opt_required : bool;
  opt_default : Port
}.

(** The dictionary [prepare_metadata] returns. *)
Record Metadata : Type := mkMetadata {
  md_name : str;
  md_description : str;
  md_authors : list str;
  md_date : str;
  md_license : str;
  md_references : list Reference;
  md_type : str;
  md_RHOSTS : RhostsOption;
  md_RPORTS : PortsOption
}.

(** Lines 95-97: [PROTOCOL_TESTERS[getattr(Protocol, name)].default_port()]
    for the name in upper case. *)
Definition default_port_of (name : str) : outcome Port :=
  match Protocol_getattr name with
  | None => Raise (AttributeError name)
  | Some p =>
      match PROTOCOL_TESTERS_default_port p with
      | None => Raise (TesterKeyError name)
      | Some port => Return port
      end
  end.

(** Lines 71-100.  The answer is [None] when the upper case of [protocol]
    cannot be written with code points below 256. *)
Definition prepare_metadata (protocol : str) : option (outcome Metadata) :=
  match upper protocol with
  | None => None
  | Some name =>
      Some
        match default_port_of name with
        | Raise e => Raise e
        | Return port =>
            Return
              {| md_name := [DQ] ++ "Ping" ++ [DQ] ++ " for " ++ protocol
                            ++ " protocol";
                 md_description :=
                   " Checks availability of " ++ protocol ++ " server "
                   ++ "by sending dedicated set of " ++ protocol
                   ++ " messages and waiting for response."
                   ++ "Requires installation of Cotopaxi framework for Python 3!";
                 md_authors := [list_ascii_of_string "Jakub Botwicz"];
                 md_date := "2021-03-14";
                 md_license := "GPL_LICENSE";
                 md_references :=
                   [mkReference "url" "https://github.com/Samsung/cotopaxi"];
                 md_type := "single_scanner";
                 md_RHOSTS := PARAMETER_RHOSTS;
                 md_RPORTS :=
                   {| opt_type := "string";
                      opt_description :=
                        "Target ports described by number of port or multiple ports "
                        ++ "given by list separated by comas (e.g. "
                        ++ [DQ] ++ "8080,9090" ++ [DQ] ++ ") or port range "
                        ++ "(e.g. " ++ [DQ] ++ "1000-2000" ++ [DQ]
                        ++ ") or mix of both";
                      opt_required := true;
                      opt_default := port |} |}
        end
  end.

End PingMetadata.

Arguments opt_default {Port} _.
Arguments opt_required {Port} _.
Arguments md_name {Port RhostsOption} _.
Arguments md_RPORTS {Port RhostsOption} _.
Arguments default_port_of {Protocol} _ {Port} _ _.
Arguments prepare_metadata {Protocol} _ {Port} _ {RhostsOption} _ _.

End Ping.

Import Ping.

(** ** The report format and an example registry *)

Definition LF : ascii := "010"%char.

(** One service group of a report: a protocol name and its addresses, each
    an ip and a port. *)
Record group : Type := mkGroup {
  g_name : str;
  g_addrs : list (str * str)
}.

(** The address token ['<ip>:<port>']. *)
Definition token (a : str * str) : str := "'" ++ a.1 ++ ":" ++ a.2 ++ "'".

(** [sep.join(l)] *)
Fixpoint join (sep : str) (l : list str) : str :=
  match l with
  | [] => []
  | [x] => x
  | x :: l' => x ++ sep ++ join sep l'
  end.

(** The service-group line [Protocol.<NAME>: ['<ip>:<port>', ...]]. *)
Definition group_line (g : group) : str :=
  "Protocol." ++ g_name g ++ ": [" ++ join ", " (map token (g_addrs g)) ++ "]".

(** A report: the marker line, one line per group, and a last line that
    starts with "Total number" and goes on with [rest]. *)
Definition raw_report (groups : list group) (rest : str) : str :=
  "Active endpoints:" ++ [LF]
  ++ flat_map (λ g, group_line g ++ [LF]) groups
  ++ "Total number" ++ rest.

(** The records a group stands for, with [transport] the transport of its
    protocol. *)
Definition group_records (transport : str) (g : group) : list ServiceRecord :=
  map (λ a, mkRecord a.1 (lower transport) a.2 (lower (g_name g)))
      (g_addrs g).

(** Modelled from the spec: the enumeration [Protocol] and the table
    [PROTOCOL_TESTERS] belong to the cotopaxi package and are missing
    here.  The spec's scenario has one protocol, SSDP, carried over UDP;
    [getattr] finds a member by its exact name. *)
Inductive SpecProtocol : Type := SSDP.

Definition spec_getattr (name : str) : option SpecProtocol :=
  if decide (name = "SSDP") then Some SSDP else None.

Definition spec_testers (p : SpecProtocol) : option str :=
  match p with SSDP => Some (list_ascii_of_string "UDP") end.

(** An engine that prints [out] whatever it is asked. *)
Definition printing (out : str) : list str → outcome str := λ _, Return out.

(** [run] with the example registry, the dependencies loaded and an engine
    that prints [out], asked for host 10.0.0.0. *)
Definition run_on (out : str) : M unit :=
  run false (printing out) spec_getattr spec_testers
      {[ "RHOSTS" := list_ascii_of_string "10.0.0.0" ]}.

(** A report as an engine prints it among other text: [pre] before the
    marker line, each service-group line behind the indentation [indent],
    and [rest] after "Total number". *)
Definition indented_report (pre indent : str) (groups : list group)
    (rest : str) : str :=
  pre ++ "Active endpoints:" ++ [LF]
  ++ flat_map (λ line, line ++ [LF])
       (map (λ g, indent ++ group_line g) groups)
  ++ "Total number" ++ rest.

(** Modelled from the spec: the default port of the one protocol of the
    spec's scenario, SSDP, whose addresses there have port 1900; the spec
    has [default_port] answer a string. *)
Definition spec_default_port (p : SpecProtocol) : option str :=
  match p with SSDP => Some (list_ascii_of_string "1900") end.

(** The characters an ip, a port or a protocol name is written with in a
    report: anything but the space, the quote, the comma, the colon and
    the line boundaries. *)
Definition plain_char (c : ascii) : bool :=
  negb (char_in " ',:" c) && negb (is_linebreak c).

Definition plain (s : str) : bool := forallb plain_char s.

(** A group whose name and addresses are written with plain characters;
    it has at least one address. *)
Definition plain_group (g : group) : bool :=
  plain (g_name g)
  && forallb (λ a, plain a.1 && plain a.2) (g_addrs g)
  && negb (bool_decide (g_addrs g = [])).

(** [sub] occurs in [s] at index [i]: [s[i:i+len(sub)] == sub]. *)
Definition occurs_at (sub s : str) (i : Z) : Prop :=
  ∃ pre post, s = pre ++ sub ++ post ∧ len pre = i.

(** The parameter list the spec gives the engine: the host, and the ports
    when they are given and not empty. *)
Definition claimed_parameters (host : str) (args : gmap string str)
    : list str :=
  match args !! "RPORTS" with
  | None => [host]
  | Some rports => if bool_decide (rports = []) then [host]
                   else [host; rports]
  end.

(** Every space of [s] is followed, in [s], by a character other than "n":
    a text of this kind holds no "Total number". *)
Fixpoint spaced (s : str) : bool :=
  match s with
  | [] => true
  | c :: s' =>
      (if Ascii.eqb c " " then
         match s' with
         | d :: _ => negb (Ascii.eqb d "n")
         | [] => false
         end
       else true)
      && spaced s'
  end.

(** The two events of an address: its log line and its report (lines
    139-150). *)
Definition address_events (proto_name transport : str) (a : str * str)
    : list event :=
  [module_log
     (Text ("Found service - host: " ++ a.1 ++ " port: " ++ a.2
            ++ " proto: " ++ proto_name ++ " over " ++ transport))
     "error";
   report_service a.1 (lower transport) a.2 (lower proto_name)].

(** The line logged when the dependencies are missing (line 108). *)
Definition missing_dependency_line : event :=
  logging_error
    (Text "Module dependency (requests) is missing, cannot continue").

(** * Properties *)

(** ** The built-ins *)

Lemma len_app {A : Type} (a b : list A) : len (a ++ b) = len a + len b.
Proof. unfold len. rewrite length_app. lia. Qed.

Lemma len_nonneg {A : Type} (a : list A) : 0 ≤ len a.
Proof. unfold len. lia. Qed.

Lemma startswith_app (sub r : str) : startswith sub (sub ++ r) = true.
Proof.
  induction sub as [|a sub IH]; simpl; [done|].
  by rewrite Ascii.eqb_refl, IH.
Qed.

Lemma startswith_lookup (sub s : str) (k : nat) (c : ascii) :
  startswith sub s = true → sub !! k = Some c → s !! k = Some c.
Proof.
  revert s k. induction sub as [|a sub IH]; intros s k Hs Hk; [done|].
  destruct s as [|b s]; simpl in Hs; [done|].
  apply andb_true_iff in Hs as [Hab Hs].
  apply Ascii.eqb_eq in Hab as ->.
  destruct k as [|k]; simpl in *; [done|]. by apply IH.
Qed.

Lemma startswith_spec (sub s : str) :
  startswith sub s = true ↔ ∃ r, s = sub ++ r.
Proof.
  split.
  - revert s. induction sub as [|a sub IH]; intros s Hs; [by exists s|].
    destruct s as [|b s]; simpl in Hs; [done|].
    apply andb_true_iff in Hs as [Hab Hs].
    apply Ascii.eqb_eq in Hab as ->.
    destruct (IH _ Hs) as [r ->]. by exists r.
  - intros [r ->]. apply startswith_app.
Qed.

(** [occurs_at] is what the scan of [find] tests at each index. *)
Lemma occurs_at_startswith (sub s : str) (j : nat) :
  occurs_at sub s (Z.of_nat j)
  ↔ (j ≤ length s)%nat ∧ startswith sub (drop j s) = true.
Proof.
  split.
  - intros (pre & post & -> & Hlen).
    assert (length pre = j) as <- by (unfold len in Hlen; lia).
    rewrite length_app. split; [lia|].
    rewrite drop_app_length. apply startswith_app.
  - intros [Hj Hs]. apply startswith_spec in Hs as [r Hr].
    exists (take j s), r. split.
    + by rewrite <- Hr, take_drop.
    + unfold len. rewrite length_take. lia.
Qed.

(** The scan skips a prefix in which [sub] does not start. *)
Lemma find_at_app_skip (sub a b : str) (i : Z) :
  (∀ j, (j < length a)%nat → startswith sub (drop j (a ++ b)) = false) →
  find_at sub (a ++ b) i = find_at sub b (i + len a).
Proof.
  revert i. induction a as [|c a IH]; intros i Hno.
  - simpl. f_equal. unfold len. simpl. lia.
  - specialize (Hno 0%nat) as H0. simpl in H0.
    change ((c :: a) ++ b) with (c :: (a ++ b)).
    cbn [find_at]. rewrite H0 by (simpl; lia).
    rewrite IH.
    + f_equal. unfold len. simpl. lia.
    + intros j Hj. apply (Hno (S j)). simpl. lia.
Qed.

Lemma find_at_here (sub s : str) (i : Z) :
  startswith sub s = true → find_at sub s i = i.
Proof. intros H. destruct s; simpl in *; by rewrite H. Qed.

Lemma find_at_none (sub s : str) (i : Z) :
  (∀ j, (j ≤ length s)%nat → startswith sub (drop j s) = false) →
  find_at sub s i = -1.
Proof.
  revert i. induction s as [|c s IH]; intros i Hno.
  - specialize (Hno 0%nat). simpl in *. rewrite Hno by lia. done.
  - specialize (Hno 0%nat) as H0. cbn [find_at]. simpl in H0.
    rewrite H0 by (simpl; lia). apply IH.
    intros j Hj. apply (Hno (S j)). simpl. lia.
Qed.

(** What the scan returns is the index of an occurrence, or [-1]. *)
Lemma find_at_range (sub s : str) (i : Z) :
  find_at sub s i = -1 ∨
  ∃ k : nat, find_at sub s i = i + Z.of_nat k ∧ (k ≤ length s)%nat
             ∧ startswith sub (drop k s) = true.
Proof.
  revert i. induction s as [|c s IH]; intros i.
  - simpl. destruct (startswith sub []) eqn:E; [|by left].
    right. exists 0%nat. simpl. split; [lia|]. split; [lia|done].
  - cbn [find_at]. destruct (startswith sub (c :: s)) eqn:E.
    + right. exists 0%nat. simpl. split; [lia|]. split; [lia|done].
    + destruct (IH (i + 1)) as [H|(k & H & Hk & Hs)]; [by left|].
      right. exists (S k). simpl. split; [lia|]. split; [lia|done].
Qed.

(** [find] answers [-1] when [sub] occurs nowhere from [start] on. *)
Lemma find_none (s sub : str) (start : Z) :
  0 ≤ start →
  (∀ i, start ≤ i → ¬ occurs_at sub s i) →
  find s sub start = -1.
Proof.
  intros Hst Hno. unfold find.
  rewrite (proj2 (Z.ltb_ge start 0)) by done.
  destruct (len s <? start) eqn:E; [done|].
  apply Z.ltb_ge in E.
  apply find_at_none. intros j Hj.
  destruct (startswith sub (drop j (drop (Z.to_nat start) s))) eqn:Hs; [|done].
  exfalso. apply (Hno (Z.of_nat (Z.to_nat start + j))); [lia|].
  apply occurs_at_startswith. rewrite length_drop in Hj.
  unfold len in E. split; [lia|]. by rewrite <- drop_drop.
Qed.

Lemma find_at_none_inv (sub s : str) (i : Z) :
  0 ≤ i → find_at sub s i = -1 →
  ∀ j, (j ≤ length s)%nat → startswith sub (drop j s) = false.
Proof.
  revert i. induction s as [|c s IH]; intros i Hi Hnone j Hj.
  - simpl in *. destruct j; [|simpl in Hj; lia].
    simpl. destruct (startswith sub []); [lia|done].
  - cbn [find_at] in Hnone.
    destruct (startswith sub (c :: s)) eqn:E; [lia|].
    destruct j as [|j]; [done|]. simpl.
    apply (IH (i + 1)); [lia|done|simpl in Hj; lia].
Qed.

(** When [find] answers [-1], [sub] occurs nowhere from [start] on. *)
Lemma find_not_found (s sub : str) (start : Z) :
  0 ≤ start → find s sub start = -1 →
  ∀ i, start ≤ i → ¬ occurs_at sub s i.
Proof.
  intros Hst Hnone i Hi (pre & post & Hs & Hlen). unfold find in Hnone.
  rewrite (proj2 (Z.ltb_ge start 0)) in Hnone by done.
  assert (len pre ≤ len s) as Hle.
  { rewrite Hs, len_app. pose proof (len_nonneg (sub ++ post)). lia. }
  destruct (len s <? start) eqn:E.
  - apply Z.ltb_lt in E. lia.
  - apply Z.ltb_ge in E.
    assert (Z.to_nat (i - start) ≤ length (drop (Z.to_nat start) s))%nat
      as Hj by (rewrite length_drop; unfold len in *; lia).
    pose proof (find_at_none_inv _ _ _ Hst Hnone _ Hj) as Hno.
    rewrite drop_drop in Hno.
    replace (Z.to_nat start + Z.to_nat (i - start))%nat
      with (length pre) in Hno by (unfold len in *; lia).
    rewrite Hs, drop_app_length, startswith_app in Hno. discriminate.
Qed.

Lemma find_absent (s sub : str) :
  find s sub 0 = -1 → ∀ i, ¬ occurs_at sub s i.
Proof.
  intros Hnone i Hocc. destruct (Z.le_gt_cases 0 i) as [Hi|Hi].
  - by apply (find_not_found s sub 0 (Z.le_refl 0) Hnone i Hi).
  - destruct Hocc as (pre & post & _ & Hlen).
    pose proof (len_nonneg pre). lia.
Qed.

(** An answer of [find] other than [-1] is the index of an occurrence. *)
Lemma find_found (s sub : str) (start : Z) :
  0 ≤ start → find s sub start ≠ -1 →
  start ≤ find s sub start ∧ occurs_at sub s (find s sub start).
Proof.
  intros Hst. unfold find.
  rewrite (proj2 (Z.ltb_ge start 0)) by done.
  destruct (len s <? start) eqn:E; [done|].
  apply Z.ltb_ge in E. intros Hne.
  destruct (find_at_range sub (drop (Z.to_nat start) s) start)
    as [H|(k & H & Hk & Hs)]; [done|].
  rewrite H. split; [lia|].
  replace (start + Z.of_nat k) with (Z.of_nat (Z.to_nat start + k)) by lia.
  apply occurs_at_startswith. rewrite length_drop in Hk.
  unfold len in E. split; [lia|]. by rewrite <- drop_drop.
Qed.

(** A slice that cuts a list in three gives the middle part. *)
Lemma slice_app3 {A : Type} (a b c : list A) (lo hi : Z) :
  adjust (len (a ++ b ++ c)) lo = len a →
  adjust (len (a ++ b ++ c)) hi = len a + len b →
  slice (a ++ b ++ c) lo hi = b.
Proof.
  intros Hlo Hhi. unfold slice. rewrite Hlo, Hhi.
  replace (Z.to_nat (len a)) with (length a) by (unfold len; lia).
  replace (Z.to_nat (len a + len b - len a)) with (length b)
    by (unfold len; lia).
  rewrite drop_app_length. apply take_app_length.
Qed.

Lemma slice_middle {A : Type} (a b c : list A) :
  slice (a ++ b ++ c) (len a) (len a + len b) = b.
Proof.
  apply slice_app3; unfold adjust; rewrite !len_app;
    pose proof (len_nonneg a); pose proof (len_nonneg b);
    pose proof (len_nonneg c).
  - rewrite (proj2 (Z.ltb_ge _ 0)) by lia. lia.
  - rewrite (proj2 (Z.ltb_ge _ 0)) by lia. lia.
Qed.

(** [x[lo:-1]] leaves the last element out. *)
Lemma slice_but_last {A : Type} (a b : list A) (x : A) :
  slice (a ++ b ++ [x]) (len a) (-1) = b.
Proof.
  apply slice_app3; unfold adjust; rewrite !len_app;
    pose proof (len_nonneg a); pose proof (len_nonneg b);
    change (len [x]) with 1.
  - rewrite (proj2 (Z.ltb_ge _ 0)) by lia. lia.
  - change (-1 <? 0) with true. cbv iota. lia.
Qed.

Lemma split_nonempty (sep : ascii) (s : str) : split sep s ≠ [].
Proof.
  destruct s as [|c s]; simpl; [done|].
  destruct (Ascii.eqb c sep); [done|]. by destruct (split sep s).
Qed.

Lemma split_nosep (sep : ascii) (a : str) :
  sep ∉ a → split sep a = [a].
Proof.
  induction a as [|c a IH]; intros Hno; [done|].
  apply not_elem_of_cons in Hno as [Hc Ha]. simpl.
  rewrite (proj2 (Ascii.eqb_neq c sep)) by congruence.
  by rewrite IH.
Qed.

Lemma split_app (sep : ascii) (a b : str) :
  sep ∉ a → split sep (a ++ sep :: b) = a :: split sep b.
Proof.
  induction a as [|c a IH]; intros Hno; simpl.
  - by rewrite Ascii.eqb_refl.
  - apply not_elem_of_cons in Hno as [Hc Ha].
    rewrite (proj2 (Ascii.eqb_neq c sep)) by congruence.
    by rewrite IH.
Qed.

Lemma lstrip_keep (chars s : str) (c : ascii) :
  char_in chars c = false → lstrip chars (c :: s) = c :: s.
Proof. intros H. simpl. by rewrite H. Qed.

Lemma lstrip_app_in (chars pre s : str) :
  forallb (char_in chars) pre = true →
  lstrip chars (pre ++ s) = lstrip chars s.
Proof.
  induction pre as [|c pre IH]; intros H; [done|]. simpl in *.
  apply andb_true_iff in H as [Hc Hpre]. rewrite Hc. by apply IH.
Qed.

Lemma length_lstrip (chars s : str) :
  (length (lstrip chars s) ≤ length s)%nat.
Proof.
  induction s as [|x s IH]; simpl; [lia|].
  destruct (char_in chars x); simpl; lia.
Qed.

Lemma lstrip_fixed_app (chars body post : str) :
  body ≠ [] → lstrip chars body = body →
  lstrip chars (body ++ post) = body ++ post.
Proof.
  intros Hne Hl. destruct body as [|c body]; [done|]. simpl in *.
  destruct (char_in chars c); [|done].
  pose proof (length_lstrip chars body) as H. rewrite Hl in H.
  simpl in H. lia.
Qed.

(** [strip] removes a margin of [chars] around a text that neither starts
    nor ends with one of them. *)
Lemma strip_core (chars pre body post : str) :
  forallb (char_in chars) pre = true →
  forallb (char_in chars) post = true →
  body ≠ [] →
  lstrip chars body = body →
  lstrip chars (rev body) = rev body →
  strip chars (pre ++ body ++ post) = body.
Proof.
  intros Hpre Hpost Hne Hl Hr. unfold strip, rstrip.
  rewrite lstrip_app_in by done.
  rewrite lstrip_fixed_app by done.
  rewrite rev_app_distr, lstrip_app_in.
  - by rewrite Hr, rev_involutive.
  - rewrite forallb_forall in *. intros x Hx. apply Hpost.
    by apply in_rev.
Qed.

Lemma splitlines_from_line (cur l r : str) :
  forallb (λ c, negb (is_linebreak c)) l = true →
  splitlines_from cur (l ++ LF :: r) = (cur ++ l) :: splitlines_from [] r.
Proof.
  revert cur. induction l as [|c l IH]; intros cur H.
  - rewrite app_nil_r. simpl. by destruct r.
  - simpl in H. apply andb_true_iff in H as [Hc Hl].
    apply negb_true_iff in Hc. simpl. rewrite Hc.
    rewrite IH by done. by rewrite <- app_assoc.
Qed.

Lemma splitlines_from_last (cur l : str) :
  forallb (λ c, negb (is_linebreak c)) l = true →
  cur ++ l ≠ [] →
  splitlines_from cur l = [cur ++ l].
Proof.
  revert cur. induction l as [|c l IH]; intros cur H Hne.
  - rewrite app_nil_r in *. simpl. by destruct cur.
  - simpl in H. apply andb_true_iff in H as [Hc Hl].
    apply negb_true_iff in Hc. simpl. rewrite Hc.
    rewrite IH; [by rewrite <- app_assoc|done|].
    rewrite <- app_assoc. by destruct cur.
Qed.

Lemma spaced_app (a b : str) :
  spaced a = true → spaced b = true → spaced (a ++ b) = true.
Proof.
  intros Ha Hb. induction a as [|c a IH]; [done|].
  simpl in *. apply andb_true_iff in Ha as [Hc Ha].
  rewrite IH by done. rewrite andb_true_r.
  destruct (Ascii.eqb c " "); [|done]. by destruct a.
Qed.

Lemma spaced_no_space (s : str) : " "%char ∉ s → spaced s = true.
Proof.
  induction s as [|c s IH]; intros Hno; [done|].
  apply not_elem_of_cons in Hno as [Hc Hs]. simpl.
  rewrite (proj2 (Ascii.eqb_neq c " ")) by congruence. by rewrite IH.
Qed.

Lemma spaced_lookup (s : str) (k : nat) :
  spaced s = true → s !! k = Some " "%char →
  ∃ d, s !! S k = Some d ∧ d ≠ "n"%char.
Proof.
  revert k. induction s as [|c s IH]; intros k Hs Hk; [done|].
  simpl in Hs. apply andb_true_iff in Hs as [Hc Hs].
  destruct k as [|k]; simpl in *.
  - injection Hk as ->. simpl in Hc. destruct s as [|d s]; [done|].
    exists d. split; [done|]. apply negb_true_iff in Hc.
    by apply Ascii.eqb_neq in Hc.
  - by apply IH.
Qed.

(** "Total number" starts nowhere in a text [a] of that kind, nor across
    its end when "Total number" follows it. *)
Lemma total_number_not_before (a rest : str) (j : nat) :
  spaced a = true → (j < length a)%nat →
  startswith "Total number" (drop j (a ++ "Total number" ++ rest)) = false.
Proof.
  intros Ha Hj.
  destruct (startswith _ _) eqn:Hs; [exfalso|done].
  pose proof (startswith_lookup _ _ 5 " "%char Hs eq_refl) as H5.
  pose proof (startswith_lookup _ _ 6 "n"%char Hs eq_refl) as H6.
  rewrite lookup_drop in H5, H6.
  destruct (decide (j + 5 < length a)%nat) as [Hin|Hout].
  - rewrite lookup_app_l in H5 by done.
    destruct (spaced_lookup _ _ Ha H5) as (d & Hd & Hne).
    replace (j + 6)%nat with (S (j + 5)) in H6 by lia.
    rewrite lookup_app_l in H6 by (apply lookup_lt_Some in Hd; lia).
    congruence.
  - rewrite lookup_app_r in H5 by lia.
    remember (j + 5 - length a)%nat as m eqn:Hm.
    assert (m < 5)%nat as Hlt by lia. clear -H5 Hlt.
    do 5 (destruct m as [|m]; [done|]). lia.
Qed.

Lemma find_total_number (a rest : str) :
  spaced a = true →
  find (a ++ "Total number" ++ rest) "Total number" 0 = len a.
Proof.
  intros Ha. unfold find. change (0 <? 0) with false. cbv iota.
  rewrite (proj2 (Z.ltb_ge _ _)) by apply len_nonneg.
  change (Z.to_nat 0) with 0%nat. rewrite drop_0.
  rewrite find_at_app_skip.
  - rewrite find_at_here; [lia|]. apply startswith_app.
  - intros j Hj. by apply total_number_not_before.
Qed.

(** The first occurrence of a character. *)
Lemma find_char (a b : str) (c : ascii) :
  c ∉ a → find (a ++ c :: b) [c] 0 = len a.
Proof.
  intros Hc. unfold find. change (0 <? 0) with false. cbv iota.
  rewrite (proj2 (Z.ltb_ge _ _)) by apply len_nonneg.
  change (Z.to_nat 0) with 0%nat. rewrite drop_0.
  rewrite find_at_app_skip.
  - rewrite find_at_here; [lia|]. simpl. by rewrite Ascii.eqb_refl.
  - intros j Hj. destruct (lookup_lt_is_Some_2 a j Hj) as [d Hd].
    rewrite (drop_S _ d) by (by rewrite lookup_app_l).
    simpl. rewrite (proj2 (Ascii.eqb_neq c d)); [done|].
    intros ->. apply Hc. by eapply list_elem_of_lookup_2.
Qed.

Lemma find_prefix (sub r : str) : find (sub ++ r) sub 0 = 0.
Proof.
  unfold find. change (0 <? 0) with false. cbv iota.
  rewrite (proj2 (Z.ltb_ge _ _)) by apply len_nonneg.
  change (Z.to_nat 0) with 0%nat. rewrite drop_0.
  apply find_at_here, startswith_app.
Qed.

(** ** Plain text *)

Lemma plain_not_in (s : str) (c : ascii) :
  plain s = true → plain_char c = false → c ∉ s.
Proof.
  intros Hs Hc Hin. apply list_elem_of_In in Hin.
  unfold plain in Hs. rewrite forallb_forall in Hs.
  specialize (Hs _ Hin). congruence.
Qed.

Lemma plain_no_linebreak (s : str) :
  plain s = true → forallb (λ c, negb (is_linebreak c)) s = true.
Proof.
  unfold plain. rewrite !forallb_forall. intros Hs c Hc.
  specialize (Hs _ Hc). unfold plain_char in Hs.
  by apply andb_true_iff in Hs as [_ ?].
Qed.

Lemma plain_char_kept (c : ascii) :
  plain_char c = true → char_in " '" c = false.
Proof.
  unfold plain_char, char_in. simpl.
  destruct (Ascii.eqb c " "), (Ascii.eqb c "'"); done.
Qed.

(** A plain text with a colon after it or before it is not stripped. *)
Lemma lstrip_plain (s r : str) :
  plain s = true → lstrip " '" (s ++ ":" ++ r) = s ++ ":" ++ r.
Proof.
  intros Hs. destruct s as [|c s]; [done|].
  simpl in Hs. apply andb_true_iff in Hs as [Hc _].
  change ((c :: s) ++ ":" ++ r) with (c :: (s ++ ":" ++ r)).
  apply lstrip_keep. by apply plain_char_kept.
Qed.

Lemma plain_rev (s : str) : plain s = true → plain (rev s) = true.
Proof.
  unfold plain. rewrite !forallb_forall. intros Hs c Hc.
  apply Hs. by apply in_rev.
Qed.

(** The two shapes of an address token between the brackets, the first
    one and the ones after a comma, are stripped to [ip:port]. *)
Lemma strip_token (margin : str) (a : str * str) :
  forallb (char_in " '") margin = true →
  plain a.1 = true → plain a.2 = true →
  strip " '" (margin ++ token a) = a.1 ++ ":" ++ a.2.
Proof.
  intros Hm Hip Hport. unfold token.
  replace (margin ++ "'" ++ a.1 ++ ":" ++ a.2 ++ "'")
    with ((margin ++ "'") ++ (a.1 ++ ":" ++ a.2) ++ "'")
    by (by rewrite <- !app_assoc).
  apply strip_core.
  - by rewrite forallb_app, Hm.
  - done.
  - by destruct (a.1).
  - by apply lstrip_plain.
  - rewrite !rev_app_distr. simpl. rewrite <- app_assoc.
    apply (lstrip_plain (rev a.2) (rev a.1)). by apply plain_rev.
Qed.

Lemma join_cons_head (sep : str) (c : ascii) (u : str) (l : list str) :
  c :: join sep (u :: l) = join sep ((c :: u) :: l).
Proof. by destruct l. Qed.

(** Cutting a list written with ", " at its commas gives the elements
    back, each but the first with a space before it. *)
Lemma split_join (t : str) (ts : list str) :
  ","%char ∉ t → Forall (λ u, ","%char ∉ u) ts →
  split "," (join ", " (t :: ts)) = t :: map (λ u, " " ++ u) ts.
Proof.
  intros Ht Hts. revert t Ht.
  induction Hts as [|u ts Hu _ IH]; intros t Ht.
  - simpl. by apply split_nosep.
  - change (join ", " (t :: u :: ts))
      with (t ++ ","%char :: " "%char :: join ", " (u :: ts)).
    rewrite split_app by done. rewrite join_cons_head, IH; [done|].
    apply not_elem_of_cons. split; [done|exact Hu].
Qed.

Lemma token_no_comma (a : str * str) :
  plain a.1 = true → plain a.2 = true → ","%char ∉ token a.
Proof.
  intros Hip Hport.
  pose proof (plain_not_in _ ","%char Hip eq_refl) as Hno_ip.
  pose proof (plain_not_in _ ","%char Hport eq_refl) as Hno_port.
  unfold token. simpl.
  repeat (rewrite not_elem_of_cons || rewrite not_elem_of_app).
  repeat split; done || apply not_elem_of_nil.
Qed.

(** ** Computations *)

Ltac unfold_monad :=
  unfold mbind, M_bind, mret, M_ret, emit, raise, try_except in *;
  cbn [fst snd app].

Lemma bind_return {A B : Type} (t : list event) (a : A) (f : A → M B) :
  ((t, Return a) ≫= f) = (t ++ (f a).1, (f a).2).
Proof. unfold mbind, M_bind. by destruct (f a). Qed.

Lemma bind_raise {A B : Type} (t : list event) (e : exn) (f : A → M B) :
  ((t, Raise e) ≫= f) = (t, Raise e).
Proof. done. Qed.

Lemma reported_app (t1 t2 : list event) :
  reported (t1 ++ t2) = reported t1 ++ reported t2.
Proof. apply omap_app. Qed.

Lemma engine_calls_app (t1 t2 : list event) :
  engine_calls (t1 ++ t2) = engine_calls t1 ++ engine_calls t2.
Proof. apply omap_app. Qed.

(** A loop whose every round returns runs them all, in order. *)
Lemma for_each_returns {A : Type} (l : list A) (body : A → M unit) :
  Forall (λ x, (body x).2 = Return tt) l →
  for_each l body = (flat_map (λ x, (body x).1) l, Return tt).
Proof.
  induction 1 as [|x l Hx _ IH]; [done|]. simpl.
  destruct (body x) as [t o] eqn:E. simpl in Hx. subst o.
  rewrite bind_return, IH. done.
Qed.


(** Events of one kind only: a property of all events of a computation
    carries over [bind] and loops. *)
Lemma Forall_bind {A B : Type} (P : event → Prop) (m : M A) (f : A → M B) :
  Forall P m.1 → (∀ a, Forall P (f a).1) → Forall P (m ≫= f).1.
Proof.
  intros Hm Hf. destruct m as [t [a|e]]; [|done].
  rewrite bind_return. simpl. apply Forall_app. split; [done|apply Hf].
Qed.

Lemma Forall_for_each {A : Type} (P : event → Prop) (l : list A)
    (body : A → M unit) :
  (∀ x, Forall P (body x).1) → Forall P (for_each l body).1.
Proof.
  intros Hbody. induction l as [|x l IH]; simpl; [constructor|].
  apply Forall_bind; [apply Hbody|done].
Qed.

Lemma engine_calls_none (t : list event) :
  Forall (λ ev, ∀ ps, ev ≠ scrap_output_main ps) t → engine_calls t = [].
Proof.
  induction 1 as [|ev t Hev _ IH]; [done|].
  destruct ev; try exact IH. by destruct (Hev parameters).
Qed.



Lemma reported_skip (ev : event) (t : list event) :
  (∀ ip proto port name, ev ≠ report_service ip proto port name) →
  reported (ev :: t) = reported t.
Proof. intros H. destruct ev; try done. by destruct (H ip proto port name). Qed.

Lemma reported_flat_map {A : Type} (f : A → list event) (l : list A) :
  reported (flat_map f l) = flat_map (λ x, reported (f x)) l.
Proof.
  induction l as [|x l IH]; [done|]. simpl. by rewrite reported_app, IH.
Qed.


Lemma reported_Forall (P : ServiceRecord → Prop) (t : list event) :
  Forall (λ ev, match ev with
                | report_service ip proto port name =>
                    P (mkRecord ip proto port name)
                | _ => True
                end) t →
  Forall P (reported t).
Proof.
  induction 1 as [|ev t Hev _ IH]; [constructor|].
  destruct ev; try exact IH. by constructor.
Qed.

(** ** The text of a report *)

Lemma forallb_join (f : ascii → bool) (sep : str) (l : list str) :
  forallb f sep = true → Forall (λ x, forallb f x = true) l →
  forallb f (join sep l) = true.
Proof.
  intros Hsep Hl. induction Hl as [|x l Hx _ IH]; [done|].
  destruct l as [|y l]; [done|].
  change (join sep (x :: y :: l)) with (x ++ sep ++ join sep (y :: l)).
  by rewrite !forallb_app, Hx, Hsep, IH.
Qed.

Lemma forallb_token (f : ascii → bool) (a : str * str) :
  f "'"%char = true → f ":"%char = true →
  forallb f a.1 = true → forallb f a.2 = true →
  forallb f (token a) = true.
Proof.
  intros Hq Hc Hip Hport. unfold token.
  rewrite !forallb_app, Hip, Hport. simpl. by rewrite Hq, Hc.
Qed.

Lemma plain_group_parts (g : group) :
  plain_group g = true →
  plain (g_name g) = true
  ∧ Forall (λ a, plain a.1 = true ∧ plain a.2 = true) (g_addrs g)
  ∧ g_addrs g ≠ [].
Proof.
  unfold plain_group. intros Hg.
  apply andb_true_iff in Hg as [Hg Hne].
  apply andb_true_iff in Hg as [Hname Haddrs].
  split; [done|]. split.
  - apply Forall_forall. intros a Ha. apply list_elem_of_In in Ha.
    rewrite forallb_forall in Haddrs. specialize (Haddrs _ Ha).
    by apply andb_true_iff in Haddrs.
  - apply negb_true_iff, bool_decide_eq_false in Hne. done.
Qed.

(** A service-group line holds no line boundary. *)
Lemma group_line_one_line (g : group) :
  plain_group g = true →
  forallb (λ c, negb (is_linebreak c)) (group_line g) = true.
Proof.
  intros Hg. destruct (plain_group_parts g Hg) as (Hname & Haddrs & _).
  unfold group_line. rewrite !forallb_app.
  rewrite (plain_no_linebreak _ Hname).
  rewrite forallb_join; [done|done|].
  apply Forall_map. eapply Forall_impl; [exact Haddrs|].
  intros a [Hip Hport]. cbv beta.
  apply forallb_token; [done|done|by apply plain_no_linebreak..].
Qed.

Lemma token_spaced (a : str * str) :
  plain a.1 = true → plain a.2 = true → spaced (token a) = true.
Proof.
  intros Hip Hport. apply spaced_no_space. unfold token. simpl.
  pose proof (plain_not_in _ " "%char Hip eq_refl) as Hno_ip.
  pose proof (plain_not_in _ " "%char Hport eq_refl) as Hno_port.
  repeat (rewrite not_elem_of_cons || rewrite not_elem_of_app).
  repeat split; done || apply not_elem_of_nil.
Qed.

Lemma join_tokens_spaced (l : list (str * str)) :
  Forall (λ a, plain a.1 = true ∧ plain a.2 = true) l →
  spaced (join ", " (map token l)) = true.
Proof.
  induction 1 as [|a l [Hip Hport] _ IH]; [done|].
  destruct l as [|b l]; [by apply token_spaced|].
  change (join ", " (map token (a :: b :: l)))
    with (token a ++ ", " ++ join ", " (map token (b :: l))).
  apply spaced_app; [by apply token_spaced|].
  assert (∃ r, join ", " (map token (b :: l)) = "'"%char :: r) as [r Hr]
    by (destruct l; by eexists).
  rewrite Hr in *. exact IH.
Qed.

(** Neither a service-group line nor the line of the start marker holds
    "Total number". *)
Lemma group_line_spaced (g : group) :
  plain_group g = true → spaced (group_line g ++ [LF]) = true.
Proof.
  intros Hg. destruct (plain_group_parts g Hg) as (Hname & Haddrs & _).
  unfold group_line. rewrite <- !app_assoc.
  repeat apply spaced_app; try done.
  - apply spaced_no_space. by apply plain_not_in.
  - by apply join_tokens_spaced.
Qed.

Lemma report_lines_spaced (groups : list group) :
  Forall (λ g, plain_group g = true) groups →
  spaced ("Active endpoints:" ++ [LF]
          ++ flat_map (λ g, group_line g ++ [LF]) groups) = true.
Proof.
  intros Hgs. repeat apply spaced_app; try done.
  induction Hgs as [|g gs Hg _ IH]; [done|].
  simpl. apply spaced_app; [|done]. by apply group_line_spaced.
Qed.

(** The lines of a report, each ended by a line feed, are the first line
    and then each other line with a line feed before it, and one line feed
    at the end. *)
Lemma lines_shift (h : str) (gs : list group) :
  h ++ [LF] ++ flat_map (λ g, group_line g ++ [LF]) gs
  = (h ++ flat_map (λ g, LF :: group_line g) gs) ++ [LF].
Proof.
  revert h. induction gs as [|g gs IH]; intros h.
  - simpl. by rewrite app_nil_r.
  - change (flat_map (λ g, group_line g ++ [LF]) (g :: gs))
      with ((group_line g ++ [LF])
            ++ flat_map (λ g, group_line g ++ [LF]) gs).
    change (flat_map (λ g, LF :: group_line g) (g :: gs))
      with ((LF :: group_line g) ++ flat_map (λ g, LF :: group_line g) gs).
    transitivity ((h ++ LF :: group_line g) ++ [LF]
                  ++ flat_map (λ g, group_line g ++ [LF]) gs).
    + by rewrite <- !app_assoc.
    + rewrite IH. by rewrite <- !app_assoc.
Qed.

Lemma splitlines_groups (cur h : str) (groups : list group) :
  forallb (λ c, negb (is_linebreak c)) h = true →
  cur ++ h ≠ [] →
  Forall (λ g, plain_group g = true) groups →
  splitlines_from cur (h ++ flat_map (λ g, LF :: group_line g) groups)
  = (cur ++ h) :: map group_line groups.
Proof.
  intros Hh Hne Hgs. revert cur h Hh Hne.
  induction Hgs as [|g gs Hg _ IH]; intros cur h Hh Hne.
  - simpl. rewrite app_nil_r. by apply splitlines_from_last.
  - change (h ++ flat_map (λ g, LF :: group_line g) (g :: gs))
      with (h ++ LF :: (group_line g
                        ++ flat_map (λ g, LF :: group_line g) gs)).
    rewrite splitlines_from_line by done.
    rewrite IH; [done|by apply group_line_one_line|done].
Qed.

Lemma reported_address_events (proto_name transport : str)
    (l : list (str * str)) :
  reported (flat_map (address_events proto_name transport) l)
  = map (λ a, mkRecord a.1 (lower transport) a.2 (lower proto_name)) l.
Proof.
  induction l as [|a l IH]; [done|].
  change (flat_map (address_events proto_name transport) (a :: l))
    with (address_events proto_name transport a
          ++ flat_map (address_events proto_name transport) l).
  rewrite reported_app, IH. done.
Qed.

(** ** The wrapper *)

Section Facts.

Context (scrap_output : list str → outcome str).
Context {Protocol : Type}.
Context (Protocol_getattr : str → option Protocol).
Context (PROTOCOL_TESTERS : Protocol → option str).

Local Abbreviation transport_name :=
  (transport_name Protocol_getattr PROTOCOL_TESTERS).
Local Abbreviation lookup := (lookup Protocol_getattr PROTOCOL_TESTERS).
Local Abbreviation report_token :=
  (report_token Protocol_getattr PROTOCOL_TESTERS).
Local Abbreviation report_line :=
  (report_line Protocol_getattr PROTOCOL_TESTERS).
Local Abbreviation parse_report :=
  (parse_report Protocol_getattr PROTOCOL_TESTERS).
Local Abbreviation attempt :=
  (attempt scrap_output Protocol_getattr PROTOCOL_TESTERS).
Local Abbreviation run flag :=
  (run flag scrap_output Protocol_getattr PROTOCOL_TESTERS).

Lemma build_parameters_eq (args : gmap string str) (host : str) :
  args !! "RHOSTS" = Some host →
  build_parameters args = ([], Return (claimed_parameters host args)).
Proof.
  intros Hh. unfold build_parameters, args_getitem, claimed_parameters.
  rewrite Hh. unfold mret, M_ret. rewrite bind_return. simpl.
  destruct (args !! "RPORTS") as [[|c r]|]; done.
Qed.

Lemma attempt_eq (args : gmap string str) (host : str) :
  args !! "RHOSTS" = Some host →
  attempt args =
    let parameters := claimed_parameters host args in
    match scrap_output parameters with
    | Return out => (scrap_output_main parameters :: (parse_report out).1,
                     (parse_report out).2)
    | Raise e => ([scrap_output_main parameters], Raise e)
    end.
Proof.
  intros Hh. unfold Detector.attempt.
  rewrite (build_parameters_eq _ _ Hh). unfold call_engine. unfold_monad.
  destruct (scrap_output _) as [out|e]; [|done].
  by destruct (Detector.parse_report _ _ _).
Qed.

Lemma run_eq (flag : bool) (args : gmap string str) (host : str) :
  args !! "RHOSTS" = Some host →
  run flag args =
    if flag then
      ([LogHandler_setup (host ++ " - "); missing_dependency_line],
       Return tt)
    else
      match attempt args with
      | (t, Return _) => (LogHandler_setup (host ++ " - ") :: t, Return tt)
      | (t, Raise e) =>
          (LogHandler_setup (host ++ " - ") :: t
             ++ [module_log (ErrorOf e) "error";
                 logging_error (TracebackOf e)],
           Return tt)
      end.
Proof.
  intros Hh. unfold Detector.run, args_getitem. rewrite Hh.
  unfold_monad. destruct flag; [done|].
  destruct (Detector.attempt _ _ _ _) as [t [[]|e]]; done.
Qed.

Lemma run_no_host (flag : bool) (args : gmap string str) :
  args !! "RHOSTS" = None → run flag args = ([], Raise (KeyError "RHOSTS")).
Proof.
  intros Hh. unfold Detector.run, args_getitem. by rewrite Hh.
Qed.

Lemma parse_report_eq (out : str) :
  parse_report out =
    let start_index := find out "Active endpoints:" 0 in
    let end_index := find out "Total number" start_index in
    if (start_index <? 0) || (end_index <? 0)
    then ([module_log (Text out) "error"], Raise FormatError)
    else
      let loop := for_each (candidate_lines out start_index end_index)
                    report_line in
      (module_log (Text out) "error" :: loop.1, loop.2).
Proof.
  unfold Detector.parse_report. unfold_monad.
  destruct (_ || _); [done|]. by destruct (for_each _ _).
Qed.

(** Parsing calls no engine: its events are log lines and reports. *)
Lemma report_token_events (P : event → Prop) (proto_name service : str) :
  (∀ text level, P (module_log (Text text) level)) →
  (∀ ip proto port name, P (report_service ip proto port name)) →
  Forall P (report_token proto_name service).1.
Proof.
  intros Hlog Hrep. unfold Detector.report_token, getitem.
  unfold Detector.transport_name.
  repeat (apply Forall_bind; [|intros ?]);
    repeat case_match; unfold_monad; repeat constructor; auto.
Qed.

Lemma parse_report_events (P : event → Prop) (out : str) :
  (∀ text level, P (module_log (Text text) level)) →
  (∀ ip proto port name, P (report_service ip proto port name)) →
  Forall P (parse_report out).1.
Proof.
  intros Hlog Hrep. rewrite parse_report_eq. cbv zeta.
  destruct (_ || _); simpl; constructor; auto.
  apply Forall_for_each. intros line.
  apply Forall_for_each. intros service.
  by apply report_token_events.
Qed.

(** C8: for a request mapping with the key RHOSTS, [run] raises nothing:
    it returns, with the dependencies missing or loaded.  An exception
    raised inside the [try], by the engine, the marker check, a line or
    the registry, ends as two error lines after what was done before
    it. *)
Theorem run_never_raises (flag : bool) (args : gmap string str)
    (host : str) :
  args !! "RHOSTS" = Some host →
  (run flag args).2 = Return tt
  ∧ ∀ e, (attempt args).2 = Raise e →
      (run false args).1
      = LogHandler_setup (host ++ " - ") :: (attempt args).1
        ++ [module_log (ErrorOf e) "error"; logging_error (TracebackOf e)].
Proof.
  intros Hh. split.
  - rewrite (run_eq _ _ _ Hh). destruct flag; [done|].
    by destruct (attempt args) as [t [[]|e]].
  - intros e He. rewrite (run_eq _ _ _ Hh).
    destruct (attempt args) as [t [[]|e']]; simpl in *; congruence.
Qed.

(** With the dependencies missing nothing is scanned and nothing is
    reported, whatever the request. *)
Lemma missing_dependency_no_scan (args : gmap string str) :
  engine_calls (run true args).1 = [] ∧ reported (run true args).1 = [].
Proof.
  destruct (args !! "RHOSTS") as [host|] eqn:Hh.
  - by rewrite (run_eq _ _ _ Hh).
  - by rewrite (run_no_host _ _ Hh).
Qed.

(** C9, amended: with the missing-dependency flag set, [run] on a request
    mapping that has the key RHOSTS logs exactly one error and returns at
    once: the engine is not called and nothing is reported. *)
Theorem missing_dependency_short_circuit (args : gmap string str)
    (host : str) :
  args !! "RHOSTS" = Some host →
  (run true args).2 = Return tt
  ∧ List.filter is_error_line (run true args).1 = [missing_dependency_line]
  ∧ engine_calls (run true args).1 = []
  ∧ reported (run true args).1 = [].
Proof. intros Hh. by rewrite (run_eq _ _ _ Hh). Qed.

(** C10: the engine is called with [RHOSTS] alone when RPORTS is absent
    or empty, and with [RHOSTS, RPORTS] when RPORTS is there and not
    empty; it is called once, and not at all when the request has no
    RHOSTS or the dependencies are missing. *)
Theorem engine_parameters (flag : bool) (args : gmap string str) :
  engine_calls (run flag args).1 =
    match args !! "RHOSTS" with
    | Some host => if flag then [] else [claimed_parameters host args]
    | None => []
    end.
Proof.
  destruct (args !! "RHOSTS") as [host|] eqn:Hh.
  - rewrite (run_eq _ _ _ Hh). destruct flag; [done|].
    rewrite (attempt_eq _ _ Hh). cbv zeta.
    assert (∀ out, engine_calls (parse_report out).1 = []) as Hq.
    { intros out. apply engine_calls_none. by apply parse_report_events. }
    destruct (scrap_output _) as [out|e]; [|done].
    specialize (Hq out).
    destruct (parse_report out) as [t [[]|e]]; simpl in *.
    + change (engine_calls (LogHandler_setup (host ++ " - ")
                :: scrap_output_main (claimed_parameters host args) :: t))
        with (claimed_parameters host args :: engine_calls t).
      by rewrite Hq.
    + change (engine_calls (LogHandler_setup (host ++ " - ")
                :: scrap_output_main (claimed_parameters host args)
                :: t ++ [module_log (ErrorOf e) "error";
                         logging_error (TracebackOf e)]))
        with (claimed_parameters host args
                :: engine_calls (t ++ [module_log (ErrorOf e) "error";
                                       logging_error (TracebackOf e)])).
      by rewrite engine_calls_app, Hq.
  - by rewrite (run_no_host _ _ Hh).
Qed.

(** What [run] does when the engine printed [out]. *)
Lemma run_on_output (args : gmap string str) (host out : str) :
  args !! "RHOSTS" = Some host →
  scrap_output (claimed_parameters host args) = Return out →
  run false args =
    match parse_report out with
    | (t, Return _) =>
        (LogHandler_setup (host ++ " - ")
           :: scrap_output_main (claimed_parameters host args) :: t,
         Return tt)
    | (t, Raise e) =>
        (LogHandler_setup (host ++ " - ")
           :: scrap_output_main (claimed_parameters host args) :: t
           ++ [module_log (ErrorOf e) "error";
               logging_error (TracebackOf e)],
         Return tt)
    end.
Proof.
  intros Hh Hout. rewrite (run_eq _ _ _ Hh), (attempt_eq _ _ Hh).
  cbv zeta. rewrite Hout. by destruct (parse_report out) as [t [[]|e]].
Qed.

(** C2: when the output has no "Active endpoints:", or no "Total number"
    at or after the place of "Active endpoints:", the parse raises the
    format error; the request reports nothing, logs the error and
    returns. *)
Theorem missing_marker_fails (args : gmap string str) (host out : str) :
  args !! "RHOSTS" = Some host →
  scrap_output (claimed_parameters host args) = Return out →
  (∀ i, ¬ occurs_at "Active endpoints:" out i)
  ∨ (∀ i, find out "Active endpoints:" 0 ≤ i
          → ¬ occurs_at "Total number" out i) →
  parse_report out = ([module_log (Text out) "error"], Raise FormatError)
  ∧ reported (run false args).1 = []
  ∧ run false args
    = ([LogHandler_setup (host ++ " - ");
        scrap_output_main (claimed_parameters host args);
        module_log (Text out) "error";
        module_log (ErrorOf FormatError) "error";
        logging_error (TracebackOf FormatError)],
       Return tt).
Proof.
  intros Hh Hout Hmiss.
  assert (parse_report out
          = ([module_log (Text out) "error"], Raise FormatError)) as Hp.
  { rewrite parse_report_eq. cbv zeta.
    assert ((find out "Active endpoints:" 0 <? 0)
            || (find out "Total number" (find out "Active endpoints:" 0)
                <? 0) = true) as ->; [|done].
    apply orb_true_iff.
    destruct Hmiss as [Hno|Hno].
    - left. rewrite find_none; [done|lia|]. intros i _. apply Hno.
    - destruct (Z.ltb_spec (find out "Active endpoints:" 0) 0) as [|Hge];
        [by left|right].
      rewrite find_none; [done|done|]. apply Hno. }
  split; [done|].
  rewrite (run_on_output _ _ _ Hh Hout), Hp. done.
Qed.

(** C7: with both markers found and no candidate line between them the
    parse returns: nothing is reported and no error is logged. *)
Theorem empty_section_succeeds (args : gmap string str) (host out : str) :
  args !! "RHOSTS" = Some host →
  scrap_output (claimed_parameters host args) = Return out →
  0 ≤ find out "Active endpoints:" 0 →
  0 ≤ find out "Total number" (find out "Active endpoints:" 0) →
  candidate_lines out (find out "Active endpoints:" 0)
    (find out "Total number" (find out "Active endpoints:" 0)) = [] →
  parse_report out = ([module_log (Text out) "error"], Return tt)
  ∧ run false args
    = ([LogHandler_setup (host ++ " - ");
        scrap_output_main (claimed_parameters host args);
        module_log (Text out) "error"],
       Return tt)
  ∧ reported (run false args).1 = []
  ∧ List.filter is_error_line (run false args).1 = [].
Proof.
  intros Hh Hout Hs He Hlines.
  assert (parse_report out = ([module_log (Text out) "error"], Return tt))
    as Hp.
  { rewrite parse_report_eq. cbv zeta. rewrite Hlines.
    rewrite (proj2 (Z.ltb_ge _ 0) Hs), (proj2 (Z.ltb_ge _ 0) He). done. }
  split; [done|].
  rewrite (run_on_output _ _ _ Hh Hout), Hp. done.
Qed.

Lemma transport_name_eq (proto_name transport : str) :
  lookup proto_name = Some transport →
  transport_name proto_name = ([], Return transport).
Proof.
  unfold Detector.lookup, Detector.transport_name.
  destruct (Protocol_getattr proto_name) as [p|]; [|done]. simpl.
  by intros ->.
Qed.

(** The exception of a failed lookup: the enumeration lacks the name, or
    the table lacks the member. *)
Lemma transport_name_none (proto_name : str) :
  lookup proto_name = None →
  transport_name proto_name
  = ([], Raise (match Protocol_getattr proto_name with
                | None => AttributeError proto_name
                | Some _ => TesterKeyError proto_name
                end)).
Proof.
  unfold Detector.lookup, Detector.transport_name.
  destruct (Protocol_getattr proto_name) as [p|]; [|done]. simpl.
  by intros ->.
Qed.

(** What one address token does, by the pieces [split] cuts it in. *)
Lemma report_token_eq (proto_name service : str) :
  report_token proto_name service =
    match split ":" (strip " '" service) with
    | service_ip :: service_port :: _ =>
        match lookup proto_name with
        | Some transport_proto =>
            ([module_log
                (Text ("Found service - host: " ++ service_ip ++ " port: "
                       ++ service_port ++ " proto: " ++ proto_name
                       ++ " over " ++ transport_proto))
                "error";
              report_service service_ip (lower transport_proto)
                service_port (lower proto_name)],
             Return tt)
        | None =>
            ([], Raise (match Protocol_getattr proto_name with
                        | None => AttributeError proto_name
                        | Some _ => TesterKeyError proto_name
                        end))
        end
    | _ => ([], Raise IndexError)
    end.
Proof.
  unfold Detector.report_token, getitem.
  destruct (split ":" (strip " '" service)) as [|ip [|port more]] eqn:E;
    [done|done|]. simpl.
  destruct (lookup proto_name) as [t|] eqn:Hl.
  - rewrite (transport_name_eq _ _ Hl). done.
  - rewrite (transport_name_none _ Hl). done.
Qed.

(** C6, amended: a token, stripped of the spaces and quotes around it, is
    cut at every colon.  The ip is the text before the first colon; the
    port is the text between the first colon and the second, which is
    all the text after the first colon when there is no second. *)
Theorem token_split_at_colons
    (proto_name transport service ip port more : str) :
  lookup proto_name = Some transport →
  strip " '" service = ip ++ ":" ++ port ++ more →
  ":"%char ∉ ip →
  ":"%char ∉ port →
  more = [] ∨ (∃ m, more = ":"%char :: m) →
  (report_token proto_name service).2 = Return tt
  ∧ reported (report_token proto_name service).1
    = [mkRecord ip (lower transport) port (lower proto_name)].
Proof.
  intros Hl Hs Hip Hport Hmore. rewrite report_token_eq, Hs, Hl.
  change (ip ++ ":" ++ port ++ more) with (ip ++ ":"%char :: port ++ more).
  rewrite split_app by done.
  destruct Hmore as [->|[m ->]].
  - rewrite app_nil_r, split_nosep by done. done.
  - rewrite split_app by done. done.
Qed.

(** [report_line] is the loop over the tokens of the line, with the name
    of the line. *)
Lemma report_line_parts (line : str) :
  report_line line
  = for_each (services_of line) (report_token (proto_name_of line)).
Proof. reflexivity. Qed.

(** A token without a colon raises, before the registry is asked. *)
Lemma token_without_colon (proto_name service : str) :
  ":"%char ∉ strip " '" service →
  report_token proto_name service = ([], Raise IndexError).
Proof. intros H. by rewrite report_token_eq, split_nosep. Qed.

(** C4, amended: the registry is asked for the protocol name as the line
    has it.  When that name is registered the lookup gives its
    transport, and every record of the line carries the name and the
    transport in lower case. *)
Theorem lookup_is_exact (line transport : str) :
  lookup (proto_name_of line) = Some transport →
  transport_name (proto_name_of line) = mret transport
  ∧ Forall (λ r, rec_name r = lower (proto_name_of line)
                 ∧ rec_proto r = lower transport)
      (reported (report_line line).1).
Proof.
  intros Hl. split; [by apply transport_name_eq|].
  apply reported_Forall.
  change (report_line line)
    with (for_each (services_of line) (report_token (proto_name_of line))).
  apply Forall_for_each. intros service.
  rewrite report_token_eq, Hl.
  repeat case_match; repeat constructor.
Qed.

(** A name the registry does not hold, as one that differs from a
    registered name in case, stops the line: nothing is reported for
    it. *)
Lemma unregistered_name_raises (line : str) :
  lookup (proto_name_of line) = None →
  reported (report_line line).1 = []
  ∧ ∃ e, (report_line line).2 = Raise e.
Proof.
  intros Hl.
  change (report_line line)
    with (for_each (services_of line) (report_token (proto_name_of line))).
  assert (∀ service, ∃ e,
            report_token (proto_name_of line) service = ([], Raise e))
    as Htok.
  { intros service. rewrite report_token_eq, Hl.
    repeat case_match; by eexists. }
  unfold services_of.
  destruct (split "," _) as [|service rest] eqn:E;
    [by apply split_nonempty in E|].
  simpl. destruct (Htok service) as [e ->]. split; [done|by exists e].
Qed.





(** *** A well-formed report *)

Lemma report_token_plain (proto_name transport margin : str)
    (a : str * str) :
  lookup proto_name = Some transport →
  forallb (char_in " '") margin = true →
  plain a.1 = true → plain a.2 = true →
  report_token proto_name (margin ++ token a)
  = (address_events proto_name transport a, Return tt).
Proof.
  intros Hl Hm Hip Hport.
  rewrite report_token_eq, strip_token, Hl by done.
  change (a.1 ++ ":" ++ a.2) with (a.1 ++ ":"%char :: a.2).
  rewrite split_app by (by apply plain_not_in).
  rewrite split_nosep by (by apply plain_not_in). done.
Qed.

Lemma for_each_tokens (proto_name transport margin : str)
    (l : list (str * str)) :
  lookup proto_name = Some transport →
  forallb (char_in " '") margin = true →
  forallb (λ a, plain a.1 && plain a.2) l = true →
  for_each (map (λ a, margin ++ token a) l) (report_token proto_name)
  = (flat_map (address_events proto_name transport) l, Return tt).
Proof.
  intros Hl Hm Hplain. induction l as [|a l IH]; [done|].
  simpl in Hplain. apply andb_true_iff in Hplain as [Ha Hplain].
  apply andb_true_iff in Ha as [Hip Hport]. simpl.
  rewrite (report_token_plain _ transport), bind_return, IH by done. done.
Qed.

(** What [report_line] takes from a service-group line. *)
Lemma group_line_parts (g : group) :
  plain (g_name g) = true →
  proto_name_of (group_line g) = g_name g
  ∧ services_of (group_line g)
    = split "," (join ", " (map token (g_addrs g))).
Proof.
  intros Hname. unfold proto_name_of, services_of.
  assert (find (group_line g) "Protocol." 0 = 0) as ->
    by apply find_prefix.
  assert (find (group_line g) ":" 0 = len ("Protocol." ++ g_name g)) as ->.
  { unfold group_line.
    replace ("Protocol." ++ g_name g ++ ": ["
             ++ join ", " (map token (g_addrs g)) ++ "]")
      with (("Protocol." ++ g_name g) ++ ":"%char
            :: (" [" ++ join ", " (map token (g_addrs g)) ++ "]"))
      by (by rewrite <- !app_assoc).
    apply (find_char _ _ ":"%char).
    apply not_elem_of_app. split; [|by apply plain_not_in].
    simpl. repeat (rewrite not_elem_of_cons). 
    repeat split; done || apply not_elem_of_nil. }
  split.
  - rewrite len_app. unfold group_line. apply slice_middle.
  - unfold group_line.
    replace ("Protocol." ++ g_name g ++ ": ["
             ++ join ", " (map token (g_addrs g)) ++ "]")
      with (("Protocol." ++ g_name g ++ ": [")
            ++ join ", " (map token (g_addrs g)) ++ ["]"%char])
      by (by rewrite <- !app_assoc).
    replace (len ("Protocol." ++ g_name g) + 3)
      with (len ("Protocol." ++ g_name g ++ ": ["))
      by (rewrite !len_app; unfold len; simpl length; lia).
    by rewrite slice_but_last.
Qed.

(** A service-group line with plain text and a registered name gives its
    records, in the order of its addresses. *)
Lemma report_group_line (g : group) (transport : str) :
  plain_group g = true →
  lookup (g_name g) = Some transport →
  (report_line (group_line g)).2 = Return tt
  ∧ reported (report_line (group_line g)).1 = group_records transport g.
Proof.
  intros Hg Hl. unfold plain_group in Hg.
  apply andb_true_iff in Hg as [Hg Hne].
  apply andb_true_iff in Hg as [Hname Haddrs].
  change (report_line (group_line g))
    with (for_each (services_of (group_line g))
            (report_token (proto_name_of (group_line g)))).
  destruct (group_line_parts g Hname) as [-> ->].
  unfold group_records.
  destruct (g_addrs g) as [|a l]; [done|]. clear Hne.
  simpl in Haddrs. apply andb_true_iff in Haddrs as [Ha Hrest].
  apply andb_true_iff in Ha as [Hip Hport].
  change (map token (a :: l)) with (token a :: map token l).
  rewrite split_join.
  - rewrite map_map. cbn [for_each].
    rewrite (report_token_plain _ transport [] a) by done.
    rewrite bind_return.
    rewrite (for_each_tokens _ transport " ") by done.
    split; [done|]. cbn [fst snd].
    apply (reported_address_events _ _ (a :: l)).
  - by apply token_no_comma.
  - apply Forall_map, Forall_forall. intros b Hb. simpl.
    apply list_elem_of_In in Hb.
    rewrite forallb_forall in Hrest. specialize (Hrest _ Hb).
    apply andb_true_iff in Hrest as [? ?]. by apply token_no_comma.
Qed.

(** Where the markers of a report are found, and its candidate lines. *)
Lemma raw_report_lines (groups : list group) (rest : str) :
  Forall (λ g, plain_group g = true) groups →
  let out := raw_report groups rest in
  find out "Active endpoints:" 0 = 0
  ∧ 0 ≤ find out "Total number" 0
  ∧ candidate_lines out 0 (find out "Total number" 0)
    = map group_line groups.
Proof.
  intros Hgs out.
  set (body := "Active endpoints:" ++ [LF]
               ++ flat_map (λ g, group_line g ++ [LF]) groups).
  set (kept := "tive endpoints:"
               ++ flat_map (λ g, LF :: group_line g) groups).
  assert (out = body ++ "Total number" ++ rest) as Hout
    by (subst out body; unfold raw_report; by rewrite <- !app_assoc).
  assert (body = ("Ac" ++ kept) ++ [LF]) as Hbody.
  { subst body kept. rewrite lines_shift. by rewrite <- !app_assoc. }
  assert (find out "Total number" 0 = len body) as Hend.
  { rewrite Hout. apply find_total_number. by apply report_lines_spaced. }
  split; [apply find_prefix|]. rewrite Hend.
  split; [apply len_nonneg|].
  unfold candidate_lines.
  assert (slice out (0 + 2) (len body - 1) = kept) as ->.
  { rewrite Hout, Hbody. rewrite <- !app_assoc.
    replace (len ("Ac" ++ kept ++ [LF]) - 1) with (len "Ac" + len kept)
      by (rewrite !len_app; unfold len; simpl length; lia).
    apply (slice_middle "Ac" kept). }
  subst kept. unfold splitlines.
  rewrite splitlines_groups by done. done.
Qed.

(** C1, amended: a report made of the line "Active endpoints:", of one
    line [Protocol.<NAME>: ['<ip>:<port>', ...]] per group, each with
    one address or more, and of a line that starts with "Total number",
    where every name is registered and every name, ip and port is
    written without space, quote, comma, colon or line boundary, is
    turned into one record per address: the records of the groups in
    their order, each with the ip and the port of its token, the name of
    its group in lower case, and the transport of that name in lower
    case.  Their number is the sum of the numbers of addresses. *)
Theorem round_trip (args : gmap string str) (host : str)
    (groups : list group) (rest : str) :
  args !! "RHOSTS" = Some host →
  scrap_output (claimed_parameters host args)
  = Return (raw_report groups rest) →
  Forall (λ g, plain_group g = true ∧ is_Some (lookup (g_name g)))
    groups →
  (run false args).2 = Return tt
  ∧ reported (run false args).1
    = flat_map (λ g, group_records (default [] (lookup (g_name g))) g)
        groups
  ∧ length (reported (run false args).1)
    = sum_list (map (λ g, length (g_addrs g)) groups).
Proof.
  intros Hh Hout Hgs.
  assert (Forall (λ g, plain_group g = true) groups) as Hplain
    by (eapply Forall_impl; [exact Hgs|]; by intros g [? _]).
  destruct (raw_report_lines groups rest Hplain) as (Hs & He & Hlines).
  assert (for_each (map group_line groups) report_line
          = (flat_map (λ line, (report_line line).1)
               (map group_line groups), Return tt)) as Hloop.
  { apply for_each_returns, Forall_map.
    eapply Forall_impl; [exact Hgs|].
    intros g [Hg [t Ht]]. by apply (report_group_line g t). }
  assert (parse_report (raw_report groups rest)
          = (module_log (Text (raw_report groups rest)) "error"
               :: flat_map (λ line, (report_line line).1)
                    (map group_line groups),
             Return tt)) as Hparse.
  { rewrite parse_report_eq. cbv zeta. rewrite Hs, Hlines, Hloop.
    rewrite (proj2 (Z.ltb_ge _ 0) He). done. }
  rewrite (run_on_output _ _ _ Hh Hout), Hparse. cbn [fst snd].
  split; [done|].
  assert (reported
            (LogHandler_setup (host ++ " - ")
               :: scrap_output_main (claimed_parameters host args)
               :: module_log (Text (raw_report groups rest)) "error"
               :: flat_map (λ line, (report_line line).1)
                    (map group_line groups))
          = flat_map
              (λ g, group_records (default [] (lookup (g_name g))) g)
              groups) as ->.
  { rewrite !reported_skip by done. rewrite reported_flat_map.
    clear -Hgs. induction Hgs as [|g gs [Hg [t Ht]] _ IH]; [done|].
    simpl. rewrite IH. f_equal. rewrite Ht. simpl.
    by apply report_group_line. }
  split; [done|].
  clear. induction groups as [|g gs IH]; [done|].
  simpl. rewrite length_app, IH. unfold group_records.
  by rewrite length_map.
Qed.

End Facts.

(** ** The claims on concrete requests *)

(** The round trip of a report with one group of two addresses. *)
Lemma round_trip_witness :
  reported
    (run_on (raw_report
               [mkGroup "SSDP" [("10.0.0.5" : str, "1900" : str);
                                ("10.0.0.6" : str, "1900" : str)]]
               ": 2")).1
  = [mkRecord "10.0.0.5" "udp" "1900" "ssdp";
     mkRecord "10.0.0.6" "udp" "1900" "ssdp"].
Proof.
  refine (proj1 (proj2
    (round_trip (printing _) spec_getattr spec_testers
       {[ "RHOSTS" := list_ascii_of_string "10.0.0.0" ]} "10.0.0.0"
       [mkGroup "SSDP" [("10.0.0.5" : str, "1900" : str);
                        ("10.0.0.6" : str, "1900" : str)]]
       ": 2" _ _ _))).
  - reflexivity.
  - reflexivity.
  - repeat constructor. by exists (list_ascii_of_string "UDP").
Defined.

(** C1 as stated fails on a group without addresses: its empty list is cut
    into one empty token, which has no colon; the exception ends the
    request, and the address of the next group is not reported. *)
Lemma round_trip_empty_group_counterexample :
  let groups := [mkGroup "SSDP" [];
                 mkGroup "SSDP" [("10.0.0.5" : str, "1900" : str)]] in
  sum_list (map (λ g, length (g_addrs g)) groups) = 1%nat
  ∧ Forall (λ g, is_Some (lookup spec_getattr spec_testers (g_name g)))
      groups
  ∧ reported (run_on (raw_report groups ": 1")).1 = []
  ∧ List.filter is_error_line (run_on (raw_report groups ": 1")).1
    = [module_log (ErrorOf IndexError) "error";
       logging_error (TracebackOf IndexError)].
Proof.
  cbv zeta. split; [done|]. split; [|by vm_compute].
  repeat constructor; by exists (list_ascii_of_string "UDP").
Qed.

(** The spec's scenario without markers. *)
Lemma missing_marker_witness :
  parse_report spec_getattr spec_testers "no markers here"
  = ([module_log (Text "no markers here") "error"], Raise FormatError)
  ∧ reported (run_on "no markers here").1 = []
  ∧ run_on "no markers here"
    = ([LogHandler_setup "10.0.0.0 - ";
        scrap_output_main ["10.0.0.0" : str];
        module_log (Text "no markers here") "error";
        module_log (ErrorOf FormatError) "error";
        logging_error (TracebackOf FormatError)],
       Return tt).
Proof.
  refine (missing_marker_fails (printing "no markers here") spec_getattr
           spec_testers {[ "RHOSTS" := list_ascii_of_string "10.0.0.0" ]}
           "10.0.0.0" "no markers here" _ _ _).
  - reflexivity.
  - reflexivity.
  - left. apply find_absent. reflexivity.
Defined.


(** A line without "Protocol." need not raise at all. *)
Lemma line_without_marker_reported :
  report_line spec_getattr spec_testers "01a:4567SSDP]"
  = (address_events "SSDP" "UDP" ("a" : str, "4567SSDP" : str), Return tt).
Proof. by vm_compute. Qed.


(** C4 as stated fails: "ssdp" is "SSDP" but for the case, and it is not
    resolved; the line reports nothing. *)
Lemma lookup_case_counterexample :
  let out := "Active endpoints:" ++ [LF]
             ++ "Protocol.ssdp: ['10.0.0.5:1900']" ++ [LF]
             ++ "Total number: 1" in
  lower "ssdp" = lower "SSDP"
  ∧ lookup spec_getattr spec_testers "SSDP" = Some (list_ascii_of_string "UDP")
  ∧ transport_name spec_getattr spec_testers "ssdp"
    = ([], Raise (AttributeError "ssdp"))
  ∧ reported (run_on out).1 = []
  ∧ List.filter is_error_line (run_on out).1
    = [module_log (ErrorOf (AttributeError "ssdp")) "error";
       logging_error (TracebackOf (AttributeError "ssdp"))].
Proof. by vm_compute. Qed.

Lemma lookup_is_exact_witness :
  transport_name spec_getattr spec_testers
    (proto_name_of "Protocol.SSDP: ['10.0.0.5:1900']")
  = mret (list_ascii_of_string "UDP")
  ∧ Forall (λ r, rec_name r
                 = lower (proto_name_of "Protocol.SSDP: ['10.0.0.5:1900']")
                 ∧ rec_proto r = lower "UDP")
      (reported (report_line spec_getattr spec_testers
                   "Protocol.SSDP: ['10.0.0.5:1900']").1).
Proof.
  refine (lookup_is_exact spec_getattr spec_testers
           "Protocol.SSDP: ['10.0.0.5:1900']" "UDP" _).
  reflexivity.
Defined.



(** C6 as stated fails: with a second colon in the token the port is the
    text between the two colons, not all the text after the first. *)
Lemma second_colon_counterexample :
  reported (report_token spec_getattr spec_testers "SSDP"
              "'10.0.0.5:1900:7'").1
  = [mkRecord "10.0.0.5" "udp" "1900" "ssdp"]
  ∧ list_ascii_of_string "1900" ≠ list_ascii_of_string "1900:7".
Proof. split; [by vm_compute|discriminate]. Qed.

Lemma token_split_witness :
  (report_token spec_getattr spec_testers "SSDP" " '10.0.0.5:1900:7'").2
  = Return tt
  ∧ reported (report_token spec_getattr spec_testers "SSDP"
                " '10.0.0.5:1900:7'").1
    = [mkRecord "10.0.0.5" (lower "UDP") "1900" (lower "SSDP")].
Proof.
  refine (token_split_at_colons spec_getattr spec_testers "SSDP" "UDP"
           " '10.0.0.5:1900:7'" "10.0.0.5" "1900" ":7" _ _ _ _ _).
  - reflexivity.
  - reflexivity.
  - apply (bool_decide_unpack _). by vm_compute.
  - apply (bool_decide_unpack _). by vm_compute.
  - right. by exists (list_ascii_of_string "7").
Defined.

Lemma empty_section_witness :
  let out := "Active endpoints:" ++ [LF] ++ "Total number: 0" in
  parse_report spec_getattr spec_testers out
  = ([module_log (Text out) "error"], Return tt)
  ∧ run_on out
    = ([LogHandler_setup "10.0.0.0 - ";
        scrap_output_main ["10.0.0.0" : str];
        module_log (Text out) "error"],
       Return tt)
  ∧ reported (run_on out).1 = []
  ∧ List.filter is_error_line (run_on out).1 = [].
Proof.
  cbv zeta.
  refine (empty_section_succeeds (printing _) spec_getattr spec_testers
           {[ "RHOSTS" := list_ascii_of_string "10.0.0.0" ]} "10.0.0.0"
           _ _ _ _ _ _).
  - reflexivity.
  - reflexivity.
  - by vm_compute.
  - by vm_compute.
  - reflexivity.
Defined.

(** An engine that raises: the request logs the error and returns. *)
Lemma run_never_raises_witness :
  let scrap_output := λ _ : list str, Raise (EngineError "no route") in
  let args : gmap string str :=
    {[ "RHOSTS" := list_ascii_of_string "10.0.0.0" ]} in
  (run false scrap_output spec_getattr spec_testers args).2 = Return tt
  ∧ ∀ e, (attempt scrap_output spec_getattr spec_testers args).2 = Raise e →
      (run false scrap_output spec_getattr spec_testers args).1
      = LogHandler_setup ("10.0.0.0" ++ " - ")
        :: (attempt scrap_output spec_getattr spec_testers args).1
        ++ [module_log (ErrorOf e) "error"; logging_error (TracebackOf e)].
Proof.
  cbv zeta.
  refine (run_never_raises (λ _, Raise (EngineError "no route")) spec_getattr
           spec_testers false
           {[ "RHOSTS" := list_ascii_of_string "10.0.0.0" ]} "10.0.0.0" _).
  reflexivity.
Defined.

(** C9 as stated fails on a request without RHOSTS: [run] raises before it
    looks at the flag, and logs nothing. *)
Lemma missing_host_counterexample :
  run true (printing []) spec_getattr spec_testers ∅
  = ([], Raise (KeyError "RHOSTS")).
Proof. reflexivity. Qed.

Lemma missing_dependency_witness :
  let args : gmap string str :=
    {[ "RHOSTS" := list_ascii_of_string "10.0.0.0" ]} in
  (run true (printing []) spec_getattr spec_testers args).2 = Return tt
  ∧ List.filter is_error_line
      (run true (printing []) spec_getattr spec_testers args).1
    = [missing_dependency_line]
  ∧ engine_calls (run true (printing []) spec_getattr spec_testers args).1
    = []
  ∧ reported (run true (printing []) spec_getattr spec_testers args).1 = [].
Proof.
  cbv zeta.
  refine (missing_dependency_short_circuit (printing []) spec_getattr
           spec_testers
           {[ "RHOSTS" := list_ascii_of_string "10.0.0.0" ]} "10.0.0.0" _).
  reflexivity.
Defined.

(** The parameter lists of three requests. *)
Example engine_parameters_examples :
  let host : str := "10.0.0.0" in
  let ports : str := "1900,5353" in
  claimed_parameters host {[ "RHOSTS" := host ]} = [host]
  ∧ claimed_parameters host {[ "RHOSTS" := host; "RPORTS" := [] ]} = [host]
  ∧ claimed_parameters host {[ "RHOSTS" := host; "RPORTS" := ports ]}
    = [host; ports].
Proof. by vm_compute. Qed.

(** * More of the wrapper *)

(** ** More on the built-ins *)

Lemma startswith_length (sub s : str) :
  startswith sub s = true → (length sub ≤ length s)%nat.
Proof.
  intros H. apply startswith_spec in H as [r ->]. rewrite length_app. lia.
Qed.

(** Whether [sub] starts a text is settled by its first [len(sub)]
    characters. *)
Lemma startswith_app_long (sub a r : str) :
  (length sub ≤ length a)%nat → startswith sub (a ++ r) = startswith sub a.
Proof.
  revert a. induction sub as [|c sub IH]; intros a Hlen; [done|].
  destruct a as [|d a]; simpl in Hlen; [lia|]. simpl.
  rewrite IH by lia. done.
Qed.

(** The scan of [find] answers the first index at which [sub] starts. *)
Lemma find_at_min (sub s : str) (i : Z) (j : nat) :
  startswith sub (drop j s) = true → (j ≤ length s)%nat →
  i ≤ find_at sub s i ≤ i + Z.of_nat j.
Proof.
  revert i j. induction s as [|c s IH]; intros i j Hs Hj.
  - simpl in Hj. assert (j = 0%nat) as -> by lia. simpl in *.
    rewrite Hs. lia.
  - cbn [find_at]. destruct (startswith sub (c :: s)) eqn:E; [lia|].
    destruct j as [|j]; [simpl in Hs; congruence|].
    simpl in Hs, Hj. specialize (IH (i + 1) j Hs). lia.
Qed.

(** The index the scan starts to count from only shifts its answer. *)
Lemma find_at_shift (sub s : str) (i d : Z) :
  0 ≤ i →
  find_at sub s (i + d)
  = if find_at sub s i <? 0 then -1 else find_at sub s i + d.
Proof.
  revert i. induction s as [|c s IH]; intros i Hi.
  - simpl. destruct (startswith sub []).
    + by rewrite (proj2 (Z.ltb_ge i 0)).
    + done.
  - cbn [find_at]. destruct (startswith sub (c :: s)).
    + by rewrite (proj2 (Z.ltb_ge i 0)).
    + replace (i + d + 1) with (i + 1 + d) by lia. apply IH. lia.
Qed.

(** An occurrence that the scan finds in [s] it finds in [s ++ x]. *)
Lemma find_at_app_found (sub s x : str) (i : Z) :
  0 ≤ i → find_at sub s i ≠ -1 →
  find_at sub (s ++ x) i = find_at sub s i.
Proof.
  revert i. induction s as [|c s IH]; intros i Hi Hne.
  - simpl in *. destruct (startswith sub []) eqn:E; [|done].
    destruct sub; [|done]. by apply find_at_here.
  - change ((c :: s) ++ x) with (c :: (s ++ x)). cbn [find_at] in *.
    destruct (startswith sub (c :: s)) eqn:E.
    + apply startswith_spec in E as [r E].
      change (c :: (s ++ x)) with ((c :: s) ++ x).
      rewrite E, <- app_assoc, startswith_app. done.
    + destruct (find_at_range sub s (i + 1)) as [H|(k & _ & Hk & Hs)];
        [done|].
      apply startswith_length in Hs. rewrite length_drop in Hs.
      change (c :: (s ++ x)) with ((c :: s) ++ x).
      rewrite startswith_app_long by (simpl; lia).
      rewrite E. apply IH; [lia|done].
Qed.

Lemma find_range (s sub : str) (start : Z) :
  0 ≤ start → find s sub start ≠ -1 →
  start ≤ find s sub start ≤ len s.
Proof.
  intros Hst Hne.
  destruct (find_found s sub start Hst Hne) as [Hle (pre & post & -> & Hp)].
  rewrite <- Hp at 2. rewrite len_app.
  pose proof (len_nonneg (sub ++ post)). lia.
Qed.

(** What [find] finds in [a] it finds in [a ++ x]. *)
Lemma find_app_found (a x sub : str) (start : Z) :
  0 ≤ start → find a sub start ≠ -1 →
  find (a ++ x) sub start = find a sub start.
Proof.
  intros Hst Hne. pose proof (find_range a sub start Hst Hne) as Hr.
  revert Hne. unfold find.
  rewrite (proj2 (Z.ltb_ge start 0)) by done.
  destruct (len a <? start) eqn:E; [done|]. intros Hne.
  apply Z.ltb_ge in E.
  rewrite (proj2 (Z.ltb_ge _ _))
    by (rewrite len_app; pose proof (len_nonneg x); lia).
  rewrite drop_app_le by (unfold len in E; lia).
  by apply find_at_app_found.
Qed.

(** [find] from an index behind a prefix is [find] in the rest, shifted. *)
Lemma find_skip_prefix (p s sub : str) (k : Z) :
  0 ≤ k →
  find (p ++ s) sub (len p + k)
  = if find s sub k <? 0 then -1 else len p + find s sub k.
Proof.
  intros Hk. pose proof (len_nonneg p) as Hp. unfold find.
  rewrite (proj2 (Z.ltb_ge k 0)) by done.
  rewrite (proj2 (Z.ltb_ge (len p + k) 0)) by lia.
  rewrite len_app.
  replace (len p + len s <? len p + k) with (len s <? k)
    by (destruct (Z.ltb_spec (len s) k), (Z.ltb_spec (len p + len s)
          (len p + k)); done || lia).
  destruct (len s <? k); [done|].
  replace (Z.to_nat (len p + k)) with (length p + Z.to_nat k)%nat
    by (unfold len; lia).
  rewrite <- drop_drop, drop_app_length.
  replace (len p + k) with (k + len p) by lia.
  rewrite find_at_shift by done.
  destruct (_ <? 0); [done|lia].
Qed.

(** A slice behind a prefix is the slice of the rest. *)
Lemma slice_skip_prefix {A : Type} (p s : list A) (lo hi : Z) :
  0 ≤ lo → 0 ≤ hi →
  slice (p ++ s) (len p + lo) (len p + hi) = slice s lo hi.
Proof.
  intros Hlo Hhi. pose proof (len_nonneg p) as Hp.
  pose proof (len_nonneg s) as Hs. unfold slice, adjust.
  rewrite len_app.
  rewrite !(proj2 (Z.ltb_ge _ 0)) by lia.
  replace (Z.to_nat (Z.min (len p + lo) (len p + len s)))
    with (length p + Z.to_nat (Z.min lo (len s)))%nat by (unfold len; lia).
  rewrite <- drop_drop, drop_app_length. f_equal. lia.
Qed.

(** A slice that ends in the first part of a text is a slice of that
    part. *)
Lemma slice_app_l {A : Type} (a x : list A) (lo hi : Z) :
  0 ≤ lo → 0 ≤ hi ≤ len a → slice (a ++ x) lo hi = slice a lo hi.
Proof.
  intros Hlo Hhi. pose proof (len_nonneg x) as Hx. unfold slice, adjust.
  rewrite len_app. rewrite !(proj2 (Z.ltb_ge _ 0)) by lia.
  replace (Z.min hi (len a + len x)) with hi by lia.
  replace (Z.min hi (len a)) with hi by lia.
  destruct (Z.le_gt_cases lo hi) as [Hle|Hgt].
  - replace (Z.min lo (len a + len x)) with lo by lia.
    replace (Z.min lo (len a)) with lo by lia.
    rewrite drop_app_le by (unfold len in *; lia).
    rewrite take_app_le; [done|]. rewrite length_drop. unfold len in *. lia.
  - replace (Z.to_nat (hi - Z.min lo (len a + len x))) with 0%nat by lia.
    replace (Z.to_nat (hi - Z.min lo (len a))) with 0%nat by lia.
    done.
Qed.

Lemma split_pieces (sep : ascii) (s : str) :
  Forall (λ w, sep ∉ w) (split sep s).
Proof.
  induction s as [|c s IH]; simpl.
  - repeat constructor. apply not_elem_of_nil.
  - destruct (Ascii.eqb c sep) eqn:E.
    + constructor; [apply not_elem_of_nil|done].
    + apply Ascii.eqb_neq in E.
      destruct (split sep s) as [|w ws].
      { constructor; [|constructor].
        apply not_elem_of_cons. split; [congruence|apply not_elem_of_nil]. }
      apply Forall_cons in IH as [Hw Hws]. constructor; [|done].
      apply not_elem_of_cons. split; [congruence|done].
Qed.

Lemma lower_char_lower_char (c : ascii) :
  lower_char (lower_char c) = lower_char c.
Proof.
  destruct c as [b0 b1 b2 b3 b4 b5 b6 b7].
  destruct b0, b1, b2, b3, b4, b5, b6, b7; reflexivity.
Qed.

Lemma lower_lower (s : str) : lower (lower s) = lower s.
Proof.
  unfold lower. rewrite map_map. apply map_ext. intros c.
  apply lower_char_lower_char.
Qed.

(** [find] answers an index that is not behind any occurrence from
    [start] on. *)
Lemma find_le_occurrence (s sub : str) (start j : Z) :
  0 ≤ start ≤ j → occurs_at sub s j →
  start ≤ find s sub start ≤ j.
Proof.
  intros Hj Hocc.
  assert (j = Z.of_nat (Z.to_nat j)) as Hjn by lia.
  rewrite Hjn in Hocc. apply occurs_at_startswith in Hocc as [Hlen Hs].
  unfold find. rewrite (proj2 (Z.ltb_ge start 0)) by lia.
  rewrite (proj2 (Z.ltb_ge _ _)) by (unfold len; lia).
  pose proof (find_at_min sub (drop (Z.to_nat start) s) start
                (Z.to_nat j - Z.to_nat start)) as Hmin.
  rewrite drop_drop, length_drop in Hmin.
  replace (Z.to_nat start + (Z.to_nat j - Z.to_nat start))%nat
    with (Z.to_nat j) in Hmin by lia.
  specialize (Hmin Hs). lia.
Qed.

(** The end marker is found behind the start marker, not on it. *)
Lemma markers_apart (out : str) :
  0 ≤ find out "Active endpoints:" 0 →
  0 ≤ find out "Total number" (find out "Active endpoints:" 0) →
  find out "Active endpoints:" 0
  < find out "Total number" (find out "Active endpoints:" 0).
Proof.
  intros Hs He.
  destruct (find_found out "Active endpoints:" 0) as [_ Hstart];
    [done|lia|].
  destruct (find_found out "Total number" (find out "Active endpoints:" 0))
    as [Hle Hend]; [done|lia|].
  destruct (Z.eq_dec (find out "Total number" (find out "Active endpoints:" 0))
              (find out "Active endpoints:" 0)) as [Heq|]; [|lia].
  rewrite Heq in Hend.
  assert (find out "Active endpoints:" 0
          = Z.of_nat (Z.to_nat (find out "Active endpoints:" 0))) as Hn by lia.
  rewrite Hn in Hstart, Hend.
  apply occurs_at_startswith in Hstart as [_ Hstart].
  apply occurs_at_startswith in Hend as [_ Hend].
  pose proof (startswith_lookup _ _ 0 "A"%char Hstart eq_refl) as HA.
  pose proof (startswith_lookup _ _ 0 "T"%char Hend eq_refl) as HT.
  congruence.
Qed.

(** ** More on the text of a report *)

Lemma lines_shift_gen (h : str) (ls : list str) :
  h ++ [LF] ++ flat_map (λ l, l ++ [LF]) ls
  = (h ++ flat_map (λ l, LF :: l) ls) ++ [LF].
Proof.
  revert h. induction ls as [|l ls IH]; intros h.
  - simpl. by rewrite app_nil_r.
  - change (flat_map (λ l, l ++ [LF]) (l :: ls))
      with ((l ++ [LF]) ++ flat_map (λ l, l ++ [LF]) ls).
    change (flat_map (λ l, LF :: l) (l :: ls))
      with ((LF :: l) ++ flat_map (λ l, LF :: l) ls).
    transitivity ((h ++ LF :: l) ++ [LF] ++ flat_map (λ l, l ++ [LF]) ls).
    + by rewrite <- !app_assoc.
    + rewrite IH. by rewrite <- !app_assoc.
Qed.

Lemma splitlines_lines (cur h : str) (ls : list str) :
  forallb (λ c, negb (is_linebreak c)) h = true →
  cur ++ h ≠ [] →
  Forall (λ l, forallb (λ c, negb (is_linebreak c)) l = true ∧ l ≠ []) ls →
  splitlines_from cur (h ++ flat_map (λ l, LF :: l) ls) = (cur ++ h) :: ls.
Proof.
  intros Hh Hne Hls. revert cur h Hh Hne.
  induction Hls as [|l ls [Hl Hl'] _ IH]; intros cur h Hh Hne.
  - simpl. rewrite app_nil_r. by apply splitlines_from_last.
  - change (h ++ flat_map (λ l, LF :: l) (l :: ls))
      with (h ++ LF :: (l ++ flat_map (λ l, LF :: l) ls)).
    rewrite splitlines_from_line by done.
    rewrite IH; done.
Qed.

(** Spaces before a text that starts with neither a space nor "n". *)
Lemma spaced_indent (indent r : str) (c : ascii) :
  forallb (Ascii.eqb " ") indent = true →
  c ≠ "n"%char →
  spaced (c :: r) = true →
  spaced (indent ++ c :: r) = true.
Proof.
  intros Hi Hc Hr. induction indent as [|d indent IH]; [done|].
  cbn [forallb] in Hi. apply andb_true_iff in Hi as [Hd Hi].
  apply Ascii.eqb_eq in Hd as <-.
  change ((" "%char :: indent) ++ c :: r)
    with (" "%char :: (indent ++ c :: r)).
  cbn [spaced]. rewrite IH by done. rewrite andb_true_r.
  change (Ascii.eqb " " " ") with true. cbv iota.
  destruct indent as [|d indent]; cbn [app].
  - apply negb_true_iff, Ascii.eqb_neq. done.
  - cbn [forallb] in Hi. apply andb_true_iff in Hi as [Hd _].
    apply Ascii.eqb_eq in Hd as <-. done.
Qed.

(** "Protocol." does not start among spaces. *)
Lemma find_behind_indent (indent : str) :
  forallb (Ascii.eqb " ") indent = true →
  find (indent ++ "Protocol.") "Protocol." 0 = len indent.
Proof.
  intros Hi. unfold find. change (0 <? 0) with false. cbv iota.
  rewrite (proj2 (Z.ltb_ge _ _)) by apply len_nonneg.
  change (Z.to_nat 0) with 0%nat. rewrite drop_0.
  rewrite find_at_app_skip.
  - rewrite find_at_here; [lia|done].
  - intros j Hj. destruct (lookup_lt_is_Some_2 indent j Hj) as [d Hd].
    rewrite (drop_S _ d) by (by rewrite lookup_app_l).
    rewrite forallb_forall in Hi.
    assert (d = " "%char) as ->.
    { symmetry. apply Ascii.eqb_eq, Hi, list_elem_of_In.
      by eapply list_elem_of_lookup_2. }
    done.
Qed.

Lemma indent_one_line (indent : str) :
  forallb (Ascii.eqb " ") indent = true →
  forallb (λ c, negb (is_linebreak c)) indent = true.
Proof.
  rewrite !forallb_forall. intros Hi c Hc.
  apply Hi, Ascii.eqb_eq in Hc as <-. done.
Qed.

(** The lines of an indented report hold no "Total number". *)
Lemma indented_lines_spaced (indent : str) (groups : list group) :
  forallb (Ascii.eqb " ") indent = true →
  Forall (λ g, plain_group g = true) groups →
  spaced ("Active endpoints:" ++ [LF]
          ++ flat_map (λ line, line ++ [LF])
               (map (λ g, indent ++ group_line g) groups)) = true.
Proof.
  intros Hi Hgs. repeat apply spaced_app; try done.
  induction Hgs as [|g gs Hg _ IH]; [done|].
  simpl. apply spaced_app; [|done]. rewrite <- app_assoc.
  pose proof (group_line_spaced g Hg) as Hsp.
  unfold group_line in *. 
  change ("Protocol." ++ g_name g ++ ": ["
          ++ join ", " (map token (g_addrs g)) ++ "]")
    with ("P"%char :: ("rotocol." ++ g_name g ++ ": ["
          ++ join ", " (map token (g_addrs g)) ++ "]")) in *.
  by apply spaced_indent.
Qed.

(** ** More on computations *)

(** A trace that is a row of address events, of addresses with a
    registered name. *)
Lemma for_each_rows {A B : Type} (F : B → list event) (Q : B → Prop)
    (l : list A) (body : A → M unit) :
  (∀ x, ∃ rows, (body x).1 = flat_map F rows ∧ Forall Q rows) →
  ∃ rows, (for_each l body).1 = flat_map F rows ∧ Forall Q rows.
Proof.
  intros Hbody. induction l as [|x l IH].
  - exists []. split; [done|constructor].
  - simpl. destruct (Hbody x) as (r1 & H1 & Q1).
    destruct (body x) as [t [[]|e]]; simpl in H1; subst t.
    + destruct IH as (r2 & H2 & Q2). exists (r1 ++ r2).
      rewrite bind_return, H2, flat_map_app. split; [done|].
      by apply Forall_app.
    + by exists r1.
Qed.

Lemma reported_Forall_inv (P : ServiceRecord → Prop) (t : list event) :
  Forall P (reported t) →
  Forall (λ ev, match ev with
                | report_service ip proto port name =>
                    P (mkRecord ip proto port name)
                | _ => True
                end) t.
Proof.
  induction t as [|ev t IH]; intros H; [constructor|].
  destruct ev; try (constructor; [done|by apply IH]).
  change (reported (report_service ip proto port name :: t))
    with (mkRecord ip proto port name :: reported t) in H.
  apply Forall_cons in H as [H1 H2]. constructor; [done|by apply IH].
Qed.

Section MoreFacts.

Context (scrap_output : list str → outcome str).
Context {Protocol : Type}.
Context (Protocol_getattr : str → option Protocol).
Context (PROTOCOL_TESTERS : Protocol → option str).

Local Abbreviation lookup := (lookup Protocol_getattr PROTOCOL_TESTERS).
Local Abbreviation report_token :=
  (report_token Protocol_getattr PROTOCOL_TESTERS).
Local Abbreviation report_line :=
  (report_line Protocol_getattr PROTOCOL_TESTERS).
Local Abbreviation parse_report :=
  (parse_report Protocol_getattr PROTOCOL_TESTERS).
Local Abbreviation attempt :=
  (attempt scrap_output Protocol_getattr PROTOCOL_TESTERS).
Local Abbreviation run flag :=
  (run flag scrap_output Protocol_getattr PROTOCOL_TESTERS).

(** X1: when the engine call raises, [run] reports nothing: after the
    set-up and the call it logs the exception twice and returns; the
    output is not logged, as there is none. *)
Theorem engine_failure_reports_nothing (args : gmap string str)
    (host : str) (e : exn) :
  args !! "RHOSTS" = Some host →
  scrap_output (claimed_parameters host args) = Raise e →
  run false args
  = ([LogHandler_setup (host ++ " - ");
      scrap_output_main (claimed_parameters host args);
      module_log (ErrorOf e) "error";
      logging_error (TracebackOf e)],
     Return tt).
Proof.
  intros Hh He.
  rewrite (run_eq scrap_output Protocol_getattr PROTOCOL_TESTERS _ _ _ Hh).
  rewrite (attempt_eq scrap_output Protocol_getattr PROTOCOL_TESTERS _ _ Hh).
  cbv zeta. by rewrite He.
Qed.

(** X2: a service-group line with an empty list of addresses raises
    [IndexError] and reports nothing, whatever the registry: the empty
    text between the brackets is split into one empty token. *)
Theorem empty_address_list_raises (name : str) :
  plain name = true →
  report_line (group_line (mkGroup name [])) = ([], Raise IndexError).
Proof.
  intros Hname.
  rewrite (report_line_parts Protocol_getattr PROTOCOL_TESTERS).
  destruct (group_line_parts (mkGroup name []) Hname) as [-> ->].
  change (split "," (join ", " (map token (g_addrs (mkGroup name [])))))
    with [[] : str].
  cbn [for_each g_name]. rewrite token_without_colon; [done|].
  apply not_elem_of_nil.
Qed.

(** X3: spaces and quotes around an address token do not count: with any
    margin of spaces and quotes on both sides of [ip:port], for plain ip
    and port and a registered name, the token is logged and reported as
    that ip and that port. *)
Theorem token_margins_ignored (proto_name transport left right ip port : str) :
  lookup proto_name = Some transport →
  forallb (char_in " '") left = true →
  forallb (char_in " '") right = true →
  plain ip = true → plain port = true →
  report_token proto_name (left ++ ip ++ ":" ++ port ++ right)
  = (address_events proto_name transport (ip, port), Return tt).
Proof.
  intros Hl Hleft Hright Hip Hport.
  rewrite (report_token_eq Protocol_getattr PROTOCOL_TESTERS).
  replace (left ++ ip ++ ":" ++ port ++ right)
    with (left ++ (ip ++ ":" ++ port) ++ right)
    by (by rewrite <- !app_assoc).
  rewrite strip_core; [|done|done|by destruct ip|by apply lstrip_plain|].
  - rewrite Hl.
    change (ip ++ ":" ++ port) with (ip ++ ":"%char :: port).
    rewrite split_app by (by apply plain_not_in).
    rewrite split_nosep by (by apply plain_not_in). done.
  - rewrite !rev_app_distr. simpl. rewrite <- app_assoc.
    apply (lstrip_plain (rev port) (rev ip)). by apply plain_rev.
Qed.

(** The first colon of a service-group line is the one after the name. *)
Lemma group_line_colon (g : group) :
  plain (g_name g) = true →
  find (group_line g) ":" 0 = len ("Protocol." ++ g_name g).
Proof.
  intros Hname. unfold group_line.
  replace ("Protocol." ++ g_name g ++ ": ["
           ++ join ", " (map token (g_addrs g)) ++ "]")
    with (("Protocol." ++ g_name g) ++ ":"%char
          :: (" [" ++ join ", " (map token (g_addrs g)) ++ "]"))
    by (by rewrite <- !app_assoc).
  apply (find_char _ _ ":"%char).
  apply not_elem_of_app. split; [|by apply plain_not_in].
  simpl. repeat (rewrite not_elem_of_cons).
  repeat split; done || apply not_elem_of_nil.
Qed.

(** What [report_line] takes from a service-group line with some text
    before it. *)
Lemma indented_line_parts (junk : str) (g : group) :
  plain (g_name g) = true →
  find (junk ++ "Protocol.") "Protocol." 0 = len junk →
  proto_name_of (junk ++ group_line g) = g_name g
  ∧ services_of (junk ++ group_line g)
    = split "," (join ", " (map token (g_addrs g))).
Proof.
  intros Hname Hjunk. unfold proto_name_of, services_of.
  pose proof (len_nonneg junk) as Hlen.
  assert (find (junk ++ group_line g) "Protocol." 0 = len junk) as ->.
  { unfold group_line. rewrite app_assoc.
    rewrite find_app_found; [done|done|]. rewrite Hjunk. lia. }
  assert (find (junk ++ group_line g) ":" (len junk)
          = len junk + len ("Protocol." ++ g_name g)) as ->.
  { replace (len junk) with (len junk + 0) at 1 by lia.
    rewrite find_skip_prefix by done.
    rewrite (group_line_colon g Hname).
    pose proof (len_nonneg ("Protocol." ++ g_name g)).
    by rewrite (proj2 (Z.ltb_ge _ 0)). }
  split.
  - rewrite slice_skip_prefix;
      [|done|apply len_nonneg].
    rewrite len_app. unfold group_line. apply slice_middle.
  - unfold group_line.
    replace (junk ++ "Protocol." ++ g_name g ++ ": ["
             ++ join ", " (map token (g_addrs g)) ++ "]")
      with ((junk ++ "Protocol." ++ g_name g ++ ": [")
            ++ join ", " (map token (g_addrs g)) ++ ["]"%char])
      by (by rewrite <- !app_assoc).
    replace (len junk + len ("Protocol." ++ g_name g) + 3)
      with (len (junk ++ "Protocol." ++ g_name g ++ ": ["))
      by (rewrite !len_app; unfold len; simpl length; lia).
    by rewrite slice_but_last.
Qed.

Lemma indented_line (junk : str) (g : group) :
  plain (g_name g) = true →
  find (junk ++ "Protocol.") "Protocol." 0 = len junk →
  report_line (junk ++ group_line g) = report_line (group_line g).
Proof.
  intros Hname Hjunk.
  rewrite !(report_line_parts Protocol_getattr PROTOCOL_TESTERS).
  destruct (indented_line_parts junk g Hname Hjunk) as [-> ->].
  by destruct (group_line_parts g Hname) as [-> ->].
Qed.

(** X4: text before "Protocol." in a service-group line, as the spaces
    that indent it, does not count: when "Protocol." starts nowhere in
    that text and the name is plain, the line does what it does without
    that text. *)
Theorem indentation_ignored (junk : str) (g : group) :
  plain (g_name g) = true →
  find (junk ++ "Protocol.") "Protocol." 0 = len junk →
  report_line (junk ++ group_line g) = report_line (group_line g).
Proof. apply indented_line. Qed.

(** What a token does is nothing, or the two events of an address with a
    registered name. *)
Lemma report_token_rows (proto_name service : str) :
  ∃ rows : list (str * str * (str * str)),
    (report_token proto_name service).1
    = flat_map (λ x, address_events x.1.1 x.1.2 x.2) rows
    ∧ Forall (λ x, lookup x.1.1 = Some x.1.2) rows.
Proof.
  rewrite (report_token_eq Protocol_getattr PROTOCOL_TESTERS).
  destruct (split ":" (strip " '" service)) as [|ip [|port more]];
    [by exists []|by exists []|].
  destruct (lookup proto_name) as [t|] eqn:Hl; [|by exists []].
  exists [((proto_name, t), (ip, port))]. split; [done|].
  by repeat constructor.
Qed.

(** X5: whatever the output, what parsing does after it has logged the
    output is a row of pairs: the "Found service" line of an address and,
    right after it, the report of that address, under a name that is
    registered and over the transport of that name. *)
Theorem parse_events_paired (out : str) :
  ∃ rows : list (str * str * (str * str)),
    (parse_report out).1
    = module_log (Text out) "error"
      :: flat_map (λ x, address_events x.1.1 x.1.2 x.2) rows
    ∧ Forall (λ x, lookup x.1.1 = Some x.1.2) rows.
Proof.
  rewrite (parse_report_eq Protocol_getattr PROTOCOL_TESTERS). cbv zeta.
  destruct (_ || _).
  - exists []. split; [done|constructor].
  - cbn [fst].
    destruct (for_each_rows
                (λ x : str * str * (str * str),
                   address_events x.1.1 x.1.2 x.2)
                (λ x, lookup x.1.1 = Some x.1.2)
                (candidate_lines out (find out "Active endpoints:" 0)
                   (find out "Total number" (find out "Active endpoints:" 0)))
                report_line) as (rows & -> & Hrows).
    + intros line.
      rewrite (report_line_parts Protocol_getattr PROTOCOL_TESTERS).
      apply for_each_rows. intros service. apply report_token_rows.
    + by exists rows.
Qed.

(** A property of every record a token reports is one of every record a
    request reports. *)
Lemma run_reported_Forall (P : ServiceRecord → Prop) (flag : bool)
    (args : gmap string str) :
  (∀ proto_name service,
     Forall P (reported (report_token proto_name service).1)) →
  Forall P (reported (run flag args).1).
Proof.
  intros Htoken.
  destruct (args !! "RHOSTS") as [host|] eqn:Hh.
  - rewrite (run_eq scrap_output Protocol_getattr PROTOCOL_TESTERS _ _ _ Hh).
    destruct flag; [constructor|].
    rewrite (attempt_eq scrap_output Protocol_getattr PROTOCOL_TESTERS _ _ Hh).
    cbv zeta.
    destruct (scrap_output _) as [out|e]; [|constructor].
    assert (Forall (λ ev, match ev with
                          | report_service ip proto port name =>
                              P (mkRecord ip proto port name)
                          | _ => True
                          end) (parse_report out).1) as Hparse.
    { rewrite (parse_report_eq Protocol_getattr PROTOCOL_TESTERS). cbv zeta.
      destruct (_ || _); cbn [fst]; constructor; try done; try constructor.
      apply Forall_for_each. intros line.
      rewrite (report_line_parts Protocol_getattr PROTOCOL_TESTERS).
      apply Forall_for_each. intros service.
      apply reported_Forall_inv, Htoken. }
    apply reported_Forall.
    destruct (parse_report out) as [t [[]|e]]; cbn [fst snd] in *.
    + by repeat constructor.
    + constructor; [done|]. constructor; [done|].
      apply Forall_app. split; [done|]. by repeat constructor.
  - rewrite (run_no_host scrap_output Protocol_getattr PROTOCOL_TESTERS _ _ Hh).
    constructor.
Qed.

(** X6: in every record a request reports, whatever the engine printed,
    the protocol name and the transport are in lower case: [lower] leaves
    them as they are. *)
Theorem reported_names_lower_case (flag : bool) (args : gmap string str) :
  Forall (λ r, lower (rec_name r) = rec_name r
               ∧ lower (rec_proto r) = rec_proto r)
    (reported (run flag args).1).
Proof.
  apply run_reported_Forall. intros proto_name service.
  rewrite (report_token_eq Protocol_getattr PROTOCOL_TESTERS).
  repeat case_match; repeat constructor; simpl; apply lower_lower.
Qed.

(** X7: in every record a request reports, whatever the engine printed,
    neither the ip nor the port holds a colon. *)
Theorem reported_addresses_without_colon (flag : bool)
    (args : gmap string str) :
  Forall (λ r, (":"%char ∉ rec_ip r) ∧ (":"%char ∉ rec_port r))
    (reported (run flag args).1).
Proof.
  apply run_reported_Forall. intros proto_name service.
  rewrite (report_token_eq Protocol_getattr PROTOCOL_TESTERS).
  pose proof (split_pieces ":" (strip " '" service)) as Hpieces.
  destruct (split ":" (strip " '" service)) as [|ip [|port more]];
    [constructor|constructor|].
  apply Forall_cons in Hpieces as [Hip Hrest].
  apply Forall_cons in Hrest as [Hport _].
  destruct (lookup proto_name); repeat constructor; simpl; done.
Qed.

(** X8: a request is read through its keys RHOSTS and RPORTS only: two
    mappings that agree on these two keys do the same. *)
Theorem run_reads_two_keys (flag : bool) (args1 args2 : gmap string str) :
  args1 !! "RHOSTS" = args2 !! "RHOSTS" →
  args1 !! "RPORTS" = args2 !! "RPORTS" →
  run flag args1 = run flag args2.
Proof.
  intros Hh Hp.
  unfold Detector.run, Detector.attempt, build_parameters, args_getitem.
  by rewrite Hh, Hp.
Qed.

(** X9: an empty RPORTS, the default of the option, is as no RPORTS: the
    request does the same with the key removed. *)
Theorem empty_ports_as_absent (flag : bool) (args : gmap string str) :
  run flag (<["RPORTS" := []]> args) = run flag (delete "RPORTS" args).
Proof.
  unfold Detector.run, Detector.attempt, build_parameters, args_getitem.
  rewrite (lookup_insert_ne _ "RPORTS" "RHOSTS") by discriminate.
  rewrite (lookup_delete_ne _ "RPORTS" "RHOSTS") by discriminate.
  rewrite lookup_insert_eq, lookup_delete_eq. done.
Qed.

(** X10: what follows "Total number" in the output does not count: two
    outputs with the same text up to "Total number", in which "Active
    endpoints:" is found, are parsed alike; after the line that logs the
    output they do the same and end the same way. *)
Theorem trailer_ignored (a r1 r2 : str) :
  0 ≤ find a "Active endpoints:" 0 →
  ∃ t o,
    parse_report (a ++ "Total number" ++ r1)
    = (module_log (Text (a ++ "Total number" ++ r1)) "error" :: t, o)
    ∧ parse_report (a ++ "Total number" ++ r2)
      = (module_log (Text (a ++ "Total number" ++ r2)) "error" :: t, o).
Proof.
  intros Hs.
  set (s := find a "Active endpoints:" 0) in *.
  set (e := find (a ++ "Total number") "Total number" s).
  assert (s ≤ len a) as Hsa by (apply find_range; [done|lia]).
  assert (s ≤ e ≤ len a) as He.
  { apply find_le_occurrence; [lia|]. exists a, []. by rewrite app_nil_r. }
  assert (∀ r, parse_report (a ++ "Total number" ++ r)
               = (module_log (Text (a ++ "Total number" ++ r)) "error"
                    :: (for_each (candidate_lines a s e) report_line).1,
                  (for_each (candidate_lines a s e) report_line).2)) as Hr.
  { intros r.
    assert (find (a ++ "Total number" ++ r) "Active endpoints:" 0 = s) as Hs'
      by (apply find_app_found; [done|fold s; lia]).
    assert (find (a ++ "Total number" ++ r) "Total number" s = e) as He'.
    { rewrite app_assoc. apply find_app_found; [done|fold e; lia]. }
    pose proof (markers_apart (a ++ "Total number" ++ r)) as Hlt.
    rewrite Hs', He' in Hlt. specialize (Hlt ltac:(lia) ltac:(lia)).
    rewrite (parse_report_eq Protocol_getattr PROTOCOL_TESTERS). cbv zeta.
    rewrite Hs', He'.
    rewrite (proj2 (Z.ltb_ge s 0)), (proj2 (Z.ltb_ge e 0)) by lia.
    cbn [orb]. unfold candidate_lines.
    rewrite slice_app_l by lia. done. }
  eexists _, _. split; apply Hr.
Qed.

(** Parsing with a text before the output. *)
Lemma preamble_parse (p s : str) :
  0 ≤ find s "Active endpoints:" 0 →
  find (p ++ s) "Active endpoints:" 0
  = len p + find s "Active endpoints:" 0 →
  ∃ t o,
    parse_report (p ++ s) = (module_log (Text (p ++ s)) "error" :: t, o)
    ∧ parse_report s = (module_log (Text s) "error" :: t, o).
Proof.
  intros Hs Hps. pose proof (len_nonneg p) as Hp.
  rewrite !(parse_report_eq Protocol_getattr PROTOCOL_TESTERS). cbv zeta.
  rewrite Hps, find_skip_prefix by done.
  rewrite (proj2 (Z.ltb_ge (find s "Active endpoints:" 0) 0)) by done.
  rewrite (proj2 (Z.ltb_ge (len p + find s "Active endpoints:" 0) 0)) by lia.
  cbn [orb].
  destruct (Z.ltb_spec
              (find s "Total number" (find s "Active endpoints:" 0)) 0)
    as [Hlt|Hge].
  - eexists _, _. split; reflexivity.
  - rewrite (proj2 (Z.ltb_ge _ 0)) by lia.
    pose proof (markers_apart s Hs Hge) as Hapart.
    unfold candidate_lines.
    replace (len p + find s "Active endpoints:" 0 + 2)
      with (len p + (find s "Active endpoints:" 0 + 2)) by lia.
    replace (len p + find s "Total number" (find s "Active endpoints:" 0) - 1)
      with (len p
            + (find s "Total number" (find s "Active endpoints:" 0) - 1))
      by lia.
    rewrite slice_skip_prefix by lia.
    eexists _, _. split; reflexivity.
Qed.

(** X11: what comes before "Active endpoints:" in the output does not
    count: when the start marker is first found in [p ++ s] where it is
    found in [s], the two outputs are parsed alike; after the line that
    logs the output they do the same and end the same way. *)
Theorem preamble_ignored (p s : str) :
  0 ≤ find s "Active endpoints:" 0 →
  find (p ++ s) "Active endpoints:" 0
  = len p + find s "Active endpoints:" 0 →
  ∃ t o,
    parse_report (p ++ s) = (module_log (Text (p ++ s)) "error" :: t, o)
    ∧ parse_report s = (module_log (Text s) "error" :: t, o).
Proof. apply preamble_parse. Qed.

(** Where the markers of an indented report without text before it are
    found, and its candidate lines. *)
Lemma indented_report_lines (indent : str) (groups : list group)
    (rest : str) :
  forallb (Ascii.eqb " ") indent = true →
  Forall (λ g, plain_group g = true) groups →
  let out := indented_report [] indent groups rest in
  find out "Active endpoints:" 0 = 0
  ∧ 0 ≤ find out "Total number" 0
  ∧ candidate_lines out 0 (find out "Total number" 0)
    = map (λ g, indent ++ group_line g) groups.
Proof.
  intros Hi Hgs out.
  set (ls := map (λ g, indent ++ group_line g) groups).
  set (body := "Active endpoints:" ++ [LF]
               ++ flat_map (λ line, line ++ [LF]) ls).
  set (kept := "tive endpoints:" ++ flat_map (λ line, LF :: line) ls).
  assert (out = body ++ "Total number" ++ rest) as Hout
    by (subst out body; unfold indented_report; by rewrite <- !app_assoc).
  assert (body = ("Ac" ++ kept) ++ [LF]) as Hbody.
  { subst body kept. rewrite lines_shift_gen. by rewrite <- !app_assoc. }
  assert (find out "Total number" 0 = len body) as Hend.
  { rewrite Hout. apply find_total_number.
    by apply indented_lines_spaced. }
  split.
  { rewrite Hout. subst body. rewrite <- !app_assoc. apply find_prefix. }
  rewrite Hend.
  split; [apply len_nonneg|].
  unfold candidate_lines.
  assert (slice out (0 + 2) (len body - 1) = kept) as ->.
  { rewrite Hout, Hbody. rewrite <- !app_assoc.
    replace (len ("Ac" ++ kept ++ [LF]) - 1) with (len "Ac" + len kept)
      by (rewrite !len_app; unfold len; simpl length; lia).
    apply (slice_middle "Ac" kept). }
  subst kept. unfold splitlines.
  rewrite splitlines_lines; [done|done|done|].
  subst ls. apply Forall_map.
  eapply Forall_impl; [exact Hgs|]. intros g Hg. cbv beta. split.
  - rewrite forallb_app, indent_one_line, group_line_one_line; done.
  - unfold group_line. by destruct indent.
Qed.

(** X15: the round trip of a report as it stands in the output of an
    engine: with any text before the marker line in which "Active
    endpoints:" does not start, with the service-group lines indented by
    spaces, and with any text after "Total number", the request reports
    the records of the groups as for the bare report: one per address, in
    order, with the ip and port of its token and the name and transport in
    lower case. *)
Theorem indented_round_trip (args : gmap string str) (host : str)
    (pre indent : str) (groups : list group) (rest : str) :
  args !! "RHOSTS" = Some host →
  scrap_output (claimed_parameters host args)
  = Return (indented_report pre indent groups rest) →
  find (pre ++ "Active endpoints:") "Active endpoints:" 0 = len pre →
  forallb (Ascii.eqb " ") indent = true →
  Forall (λ g, plain_group g = true ∧ is_Some (lookup (g_name g)))
    groups →
  (run false args).2 = Return tt
  ∧ reported (run false args).1
    = flat_map (λ g, group_records (default [] (lookup (g_name g))) g)
        groups.
Proof.
  intros Hh Hout Hpre Hi Hgs. pose proof (len_nonneg pre) as Hlen.
  assert (Forall (λ g, plain_group g = true) groups) as Hplain
    by (eapply Forall_impl; [exact Hgs|]; by intros g [? _]).
  set (bare := indented_report [] indent groups rest).
  destruct (indented_report_lines indent groups rest Hi Hplain)
    as (Hs & He & Hlines). fold bare in Hs, He, Hlines.
  assert (for_each (map (λ g, indent ++ group_line g) groups) report_line
          = (flat_map (λ line, (report_line line).1)
               (map (λ g, indent ++ group_line g) groups), Return tt))
    as Hloop.
  { apply for_each_returns, Forall_map.
    eapply Forall_impl; [exact Hgs|].
    intros g [Hg [t Ht]]. cbv beta.
    rewrite indented_line;
      [|by destruct (plain_group_parts g Hg)|by apply find_behind_indent].
    by apply (report_group_line Protocol_getattr PROTOCOL_TESTERS g t). }
  assert (parse_report bare
          = (module_log (Text bare) "error"
               :: flat_map (λ line, (report_line line).1)
                    (map (λ g, indent ++ group_line g) groups),
             Return tt)) as Hbare.
  { rewrite (parse_report_eq Protocol_getattr PROTOCOL_TESTERS). cbv zeta.
    rewrite Hs, Hlines, Hloop.
    rewrite (proj2 (Z.ltb_ge _ 0) He). done. }
  destruct (preamble_parse pre bare) as (t & o & Hfull & Hbare').
  { rewrite Hs. done. }
  { rewrite Hs, Z.add_0_r.
    change bare with ("Active endpoints:" ++
      ([LF] ++ flat_map (λ line, line ++ [LF])
                 (map (λ g, indent ++ group_line g) groups)
       ++ "Total number" ++ rest)).
    rewrite app_assoc. rewrite find_app_found; [done|done|].
    rewrite Hpre. lia. }
  rewrite Hbare in Hbare'. injection Hbare' as <- <-.
  assert (indented_report pre indent groups rest = pre ++ bare) as Heq
    by done.
  rewrite Heq in Hout.
  rewrite (run_on_output scrap_output Protocol_getattr PROTOCOL_TESTERS
             _ _ _ Hh Hout), Hfull.
  cbn [fst snd]. split; [done|].
  rewrite !reported_skip by done. rewrite reported_flat_map.
  clear -Hgs Hi. induction Hgs as [|g gs [Hg [t Ht]] _ IH]; [done|].
  simpl. rewrite IH. f_equal. rewrite Ht. simpl.
  rewrite indented_line;
    [|by destruct (plain_group_parts g Hg)|by apply find_behind_indent].
  by apply report_group_line.
Qed.

End MoreFacts.

(** ** The metadata of a ping module *)

Lemma upper_char_length (c : ascii) (u : str) :
  upper_char c = Some u → (1 ≤ length u)%nat.
Proof.
  unfold upper_char. repeat case_match; intros [= <-]; simpl; lia.
Qed.

Lemma upper_length (s u : str) :
  upper s = Some u → (length s ≤ length u)%nat.
Proof.
  revert u. induction s as [|c s IH]; intros u Hu; simpl in *.
  - injection Hu as <-. done.
  - destruct (upper_char c) as [uc|] eqn:Ec; [|done].
    destruct (upper s) as [us|]; [|done]. injection Hu as <-.
    apply upper_char_length in Ec. specialize (IH us eq_refl).
    rewrite length_app. lia.
Qed.

(** A text that is its own upper case is so character by character. *)
Lemma upper_fixed_chars (s : str) :
  upper s = Some s → Forall (λ c, upper_char c = Some [c]) s.
Proof.
  induction s as [|c s IH]; intros Hu; [constructor|]. simpl in Hu.
  destruct (upper_char c) as [uc|] eqn:Ec; [|done].
  destruct (upper s) as [us|] eqn:Es; [|done]. injection Hu as Hu.
  pose proof (upper_char_length _ _ Ec) as Hc.
  pose proof (upper_length _ _ Es) as Hs.
  pose proof (f_equal length Hu) as Hl. rewrite length_app in Hl.
  simpl in Hl.
  destruct uc as [|d [|d' uc]]; simpl in *; [lia| |lia].
  injection Hu as -> ->. constructor; [done|by apply IH].
Qed.

Lemma upper_char_lower_char (c : ascii) :
  upper_char c = Some [c] → upper_char (lower_char c) = Some [c].
Proof.
  destruct c as [b0 b1 b2 b3 b4 b5 b6 b7].
  destruct b0, b1, b2, b3, b4, b5, b6, b7; vm_compute; congruence.
Qed.

(** The upper case of the lower case of a text in upper case is that
    text. *)
Lemma upper_lower (s : str) :
  upper s = Some s → upper (lower s) = Some s.
Proof.
  intros Hu. apply upper_fixed_chars in Hu.
  induction Hu as [|c s Hc _ IH]; [done|].
  change (lower (c :: s)) with (lower_char c :: lower s).
  cbn [upper]. by rewrite (upper_char_lower_char c Hc), IH.
Qed.

Section PingFacts.

Context {Protocol : Type} (Protocol_getattr : str → option Protocol).
Context {Port : Type}.
Context (PROTOCOL_TESTERS_default_port : Protocol → option Port).
Context {RhostsOption : Type} (PARAMETER_RHOSTS : RhostsOption).

Local Abbreviation default_port_of :=
  (default_port_of Protocol_getattr PROTOCOL_TESTERS_default_port).
Local Abbreviation prepare_metadata :=
  (prepare_metadata Protocol_getattr PROTOCOL_TESTERS_default_port
     PARAMETER_RHOSTS).

(** What [prepare_metadata] answers, by the upper case of the name. *)
Lemma prepare_metadata_cases (protocol name : str) :
  upper protocol = Some name →
  match prepare_metadata protocol with
  | Some (Return m) =>
      default_port_of name = Return (opt_default (md_RPORTS m))
      ∧ md_name m = [DQ] ++ "Ping" ++ [DQ] ++ " for " ++ protocol
                    ++ " protocol"
      ∧ opt_required (md_RPORTS m) = true
  | Some (Raise e) => default_port_of name = Raise e
  | None => False
  end.
Proof.
  intros Hu. unfold Ping.prepare_metadata. rewrite Hu.
  by destruct (default_port_of name).
Qed.

(** X12: [prepare_metadata] takes the protocol in any case: two names with
    the same upper case get the same default port, or fail with the same
    exception. *)
Theorem prepare_metadata_any_case (p1 p2 name : str) :
  upper p1 = Some name →
  upper p2 = Some name →
  match prepare_metadata p1, prepare_metadata p2 with
  | Some (Return m1), Some (Return m2) =>
      opt_default (md_RPORTS m1) = opt_default (md_RPORTS m2)
  | Some (Raise e1), Some (Raise e2) => e1 = e2
  | _, _ => False
  end.
Proof.
  intros H1 H2.
  pose proof (prepare_metadata_cases p1 name H1) as C1.
  pose proof (prepare_metadata_cases p2 name H2) as C2.
  destruct (prepare_metadata p1) as [[m1|e1]|],
           (prepare_metadata p2) as [[m2|e2]|]; try done.
  - destruct C1 as [C1 _], C2 as [C2 _]. congruence.
  - destruct C1 as [C1 _]. congruence.
  - destruct C2 as [C2 _]. congruence.
  - congruence.
Qed.

(** X13: the name of the metadata tells the protocol as it was given:
    metadata with the same name come from the same protocol text. *)
Theorem prepare_metadata_name_injective (p1 p2 : str)
    (m1 m2 : Metadata Port RhostsOption) :
  prepare_metadata p1 = Some (Return m1) →
  prepare_metadata p2 = Some (Return m2) →
  md_name m1 = md_name m2 →
  p1 = p2.
Proof.
  unfold Ping.prepare_metadata. intros H1 H2 Hname.
  destruct (upper p1) as [n1|]; [|done].
  destruct (upper p2) as [n2|]; [|done].
  destruct (default_port_of n1); [|done].
  destruct (default_port_of n2); [|done].
  injection H1 as <-. injection H2 as <-. cbn [md_name] in Hname.
  simpl in Hname. injection Hname as Hname. by apply app_inv_tail in Hname.
Qed.

(** X14: for a name that is its own upper case and has a default port,
    [prepare_metadata] takes its spelling in lower case: it returns
    metadata with RPORTS required and that port as its default, and with
    the lower-case spelling in its name. *)
Theorem prepare_metadata_lower_name (name : str) (port : Port) :
  upper name = Some name →
  default_port_of name = Return port →
  ∃ m, prepare_metadata (lower name) = Some (Return m)
    ∧ opt_default (md_RPORTS m) = port
    ∧ opt_required (md_RPORTS m) = true
    ∧ md_name m = [DQ] ++ "Ping" ++ [DQ] ++ " for " ++ lower name
                  ++ " protocol".
Proof.
  intros Hu Hport.
  pose proof (prepare_metadata_cases (lower name) name (upper_lower _ Hu))
    as Hc.
  destruct (prepare_metadata (lower name)) as [[m|e]|]; [|congruence|done].
  destruct Hc as (Hd & Hn & Hr). exists m. rewrite Hport in Hd.
  injection Hd as <-. done.
Qed.

End PingFacts.

(** ** These properties on concrete requests *)

Lemma engine_failure_witness :
  let scrap_output := λ _ : list str, Raise (EngineError "no route") in
  run false scrap_output spec_getattr spec_testers
    {[ "RHOSTS" := list_ascii_of_string "10.0.0.0" ]}
  = ([LogHandler_setup ("10.0.0.0" ++ " - ");
      scrap_output_main
        (claimed_parameters "10.0.0.0"
           {[ "RHOSTS" := list_ascii_of_string "10.0.0.0" ]});
      module_log (ErrorOf (EngineError "no route")) "error";
      logging_error (TracebackOf (EngineError "no route"))],
     Return tt).
Proof.
  cbv zeta.
  refine (engine_failure_reports_nothing
            (λ _, Raise (EngineError "no route")) spec_getattr spec_testers
            {[ "RHOSTS" := list_ascii_of_string "10.0.0.0" ]} "10.0.0.0"
            (EngineError "no route") _ _).
  - reflexivity.
  - reflexivity.
Defined.

Lemma empty_address_list_witness :
  report_line spec_getattr spec_testers (group_line (mkGroup "SSDP" []))
  = ([], Raise IndexError).
Proof.
  refine (empty_address_list_raises spec_getattr spec_testers "SSDP" _).
  reflexivity.
Defined.

Lemma token_margins_witness :
  report_token spec_getattr spec_testers "SSDP"
    ("  '" ++ "10.0.0.5" ++ ":" ++ "1900" ++ "' ")
  = (address_events "SSDP" "UDP" ("10.0.0.5" : str, "1900" : str),
     Return tt).
Proof.
  refine (token_margins_ignored spec_getattr spec_testers "SSDP" "UDP"
            "  '" "' " "10.0.0.5" "1900" _ _ _ _ _); reflexivity.
Defined.

Lemma indentation_witness :
  let g := mkGroup "SSDP" [("10.0.0.5" : str, "1900" : str)] in
  report_line spec_getattr spec_testers ("    " ++ group_line g)
  = report_line spec_getattr spec_testers (group_line g).
Proof.
  cbv zeta.
  refine (indentation_ignored spec_getattr spec_testers "    "
            (mkGroup "SSDP" [("10.0.0.5" : str, "1900" : str)]) _ _);
    reflexivity.
Defined.

Lemma run_reads_two_keys_witness :
  run false (printing "Active endpoints:") spec_getattr spec_testers
    {[ "RHOSTS" := list_ascii_of_string "10.0.0.0" ]}
  = run false (printing "Active endpoints:") spec_getattr spec_testers
      {[ "RHOSTS" := list_ascii_of_string "10.0.0.0";
         "THREADS" := list_ascii_of_string "4" ]}.
Proof.
  refine (run_reads_two_keys (printing "Active endpoints:") spec_getattr
            spec_testers false
            {[ "RHOSTS" := list_ascii_of_string "10.0.0.0" ]}
            {[ "RHOSTS" := list_ascii_of_string "10.0.0.0";
               "THREADS" := list_ascii_of_string "4" ]} _ _);
    reflexivity.
Defined.

Lemma trailer_witness :
  let a := "Active endpoints:" ++ [LF]
           ++ "Protocol.SSDP: ['10.0.0.5:1900']" ++ [LF] in
  ∃ t o,
    parse_report spec_getattr spec_testers (a ++ "Total number" ++ ": 1")
    = (module_log (Text (a ++ "Total number" ++ ": 1")) "error" :: t, o)
    ∧ parse_report spec_getattr spec_testers
        (a ++ "Total number" ++ " of endpoints: 1")
      = (module_log (Text (a ++ "Total number" ++ " of endpoints: 1"))
           "error" :: t, o).
Proof.
  cbv zeta.
  refine (trailer_ignored spec_getattr spec_testers _ ": 1"
            " of endpoints: 1" _).
  by vm_compute.
Defined.

Lemma preamble_witness :
  let s := "Active endpoints:" ++ [LF]
           ++ "Protocol.SSDP: ['10.0.0.5:1900']" ++ [LF]
           ++ "Total number: 1" in
  let p := "Scanning 10.0.0.0" ++ [LF] in
  ∃ t o,
    parse_report spec_getattr spec_testers (p ++ s)
    = (module_log (Text (p ++ s)) "error" :: t, o)
    ∧ parse_report spec_getattr spec_testers s
      = (module_log (Text s) "error" :: t, o).
Proof.
  cbv zeta.
  refine (preamble_ignored spec_getattr spec_testers _ _ _ _).
  - by vm_compute.
  - reflexivity.
Defined.

Lemma indented_round_trip_witness :
  let groups := [mkGroup "SSDP" [("10.0.0.5" : str, "1900" : str);
                                 ("10.0.0.6" : str, "1900" : str)]] in
  let out := indented_report ("Scanning 10.0.0.0" ++ [LF]) "    " groups
               " of endpoints: 2" in
  (run_on out).2 = Return tt
  ∧ reported (run_on out).1
    = flat_map
        (λ g, group_records
                (default [] (lookup spec_getattr spec_testers (g_name g)))
                g)
        groups.
Proof.
  cbv zeta.
  refine (indented_round_trip (printing _) spec_getattr spec_testers
            {[ "RHOSTS" := list_ascii_of_string "10.0.0.0" ]} "10.0.0.0"
            ("Scanning 10.0.0.0" ++ [LF]) "    "
            [mkGroup "SSDP" [("10.0.0.5" : str, "1900" : str);
                             ("10.0.0.6" : str, "1900" : str)]]
            " of endpoints: 2" _ _ _ _ _).
  - reflexivity.
  - reflexivity.
  - reflexivity.
  - reflexivity.
  - repeat constructor. by exists (list_ascii_of_string "UDP").
Defined.

Lemma prepare_metadata_any_case_witness :
  match prepare_metadata spec_getattr spec_default_port tt "ssdp",
        prepare_metadata spec_getattr spec_default_port tt "Ssdp" with
  | Some (Return m1), Some (Return m2) =>
      opt_default (md_RPORTS m1) = opt_default (md_RPORTS m2)
  | Some (Raise e1), Some (Raise e2) => e1 = e2
  | _, _ => False
  end.
Proof.
  refine (prepare_metadata_any_case spec_getattr spec_default_port tt
            "ssdp" "Ssdp" "SSDP" _ _); reflexivity.
Defined.

Lemma prepare_metadata_name_witness :
  ∃ m, prepare_metadata spec_getattr spec_default_port tt "ssdp"
       = Some (Return m)
    ∧ list_ascii_of_string "ssdp" = list_ascii_of_string "ssdp".
Proof.
  eexists. split; [reflexivity|].
  refine (prepare_metadata_name_injective spec_getattr spec_default_port tt
            "ssdp" "ssdp" _ _ _ _ _); reflexivity.
Defined.

(** The metadata for "ssdp" and for "SSDP" have the same default port and
    different names. *)
Example prepare_metadata_two_spellings :
  ∀ m1 m2,
    prepare_metadata spec_getattr spec_default_port tt "ssdp"
    = Some (Return m1) →
    prepare_metadata spec_getattr spec_default_port tt "SSDP"
    = Some (Return m2) →
    opt_default (md_RPORTS m1) = opt_default (md_RPORTS m2)
    ∧ md_name m1 ≠ md_name m2.
Proof.
  intros m1 m2 [= <-] [= <-]. split; [done|discriminate].
Qed.

Lemma prepare_metadata_lower_name_witness :
  ∃ m, prepare_metadata spec_getattr spec_default_port tt (lower "SSDP")
       = Some (Return m)
    ∧ opt_default (md_RPORTS m) = list_ascii_of_string "1900"
    ∧ opt_required (md_RPORTS m) = true
    ∧ md_name m = [DQ] ++ "Ping" ++ [DQ] ++ " for " ++ lower "SSDP"
                  ++ " protocol".
Proof.
  refine (prepare_metadata_lower_name spec_getattr spec_default_port tt
            "SSDP" "1900" _ _); reflexivity.
Defined.
